(** * Personal notes manager: the notes page and its authentication overlay

    A shallow embedding of [notes_frontend/src/routes/index.tsx]: the signals
    of the page component, its four event handlers ([loadNotes$], [newNote$],
    [saveNote$], [deleteNote$]), the task that keeps the editor in step with
    the selection, the sidebar's filter and the overlay's [submit$].

    Conventions.
    - A JavaScript string is held as the bytes of its UTF-8 form, which is
      what a string literal of this file denotes; the strings meant are the
      well-formed ones (no lone surrogate).  Equality, concatenation and the
      occurrence of one string in another are the same on the bytes as on
      the code units.
    - What the engine does in its own way stays a parameter, with the
      properties ECMAScript fixes: [Date] parsing, [JSON],
      [String.prototype.toLowerCase] and [Array.prototype.sort].
    - A signal is a lens into the [World]; [s.value] reads and [s.value = v]
      assigns.
    - An event handler is a computation in the monad [M]: it reads and
      assigns signals, calls the HTTP client and may die on an uncaught
      [TypeError].  A handler runs against the answer of the backend without
      another handler running in between. *)

From Stdlib Require Import ZArith Ascii String List Bool Lia.
From stdpp Require Import base option strings pretty list sorting gmap.

Local Open Scope string_scope.

(** ** JavaScript built-ins on strings *)

(** [!!s]: a string is truthy unless it is empty. *)
Definition truthy (s : string) : bool := negb (String.eqb s "").

(** [!!v] for [v : string | null | undefined]. *)
Definition truthy_opt (v : option string) : bool :=
  match v with
  | Some s => truthy s
  | None => false
  end.

(** [s || d] for a string [s]. *)
Definition or_else (s d : string) : string := if truthy s then s else d.

(** [v || d] for [v : string | null | undefined]. *)
Definition or_str (v : option string) (d : string) : string :=
  match v with
  | Some s => or_else s d
  | None => d
  end.

(** [`${v}`] for [v : string | null]. *)
Definition template (v : option string) : string :=
  match v with
  | Some s => s
  | None => "null"
  end.

(** [!!v] for [v : T | undefined] where every [T] is truthy (objects). *)
Definition present {T} (v : option T) : bool :=
  match v with
  | Some _ => true
  | None => false
  end.

(** [x === v] for a string [x] and [v : string | null]. *)
Definition strict_eq (x : string) (v : option string) : bool :=
  match v with
  | Some y => String.eqb x y
  | None => false
  end.

(** [v || d] for [v : T | undefined] where every [T] is truthy (arrays). *)
Definition or_obj {T} (v : option T) (d : T) : T :=
  match v with
  | Some x => x
  | None => d
  end.

(** ECMAScript [WhiteSpace] and [LineTerminator], by the length of the
    UTF-8 form.  One byte: TAB, LF, VT, FF, CR, SP. *)
Definition white_space_1 (c1 : ascii) : bool :=
  let n1 := N_of_ascii c1 in
  ((9 <=? n1) && (n1 <=? 13) || (n1 =? 32))%N.

(** Two bytes: U+00A0, [C2 A0]. *)
Definition white_space_2 (c1 c2 : ascii) : bool :=
  ((N_of_ascii c1 =? 194) && (N_of_ascii c2 =? 160))%N.

(** Three bytes: U+1680 [E1 9A 80]; U+2000..U+200A, U+2028, U+2029 and
    U+202F [E2 80 80..8A, A8, A9, AF]; U+205F [E2 81 9F]; U+3000 [E3 80 80];
    U+FEFF [EF BB BF]. *)
Definition white_space_3 (c1 c2 c3 : ascii) : bool :=
  let n1 := N_of_ascii c1 in
  let n2 := N_of_ascii c2 in
  let n3 := N_of_ascii c3 in
  ((n1 =? 225) && (n2 =? 154) && (n3 =? 128) ||
   (n1 =? 226) && (n2 =? 128) &&
     ((128 <=? n3) && (n3 <=? 138) || (n3 =? 168) || (n3 =? 169) || (n3 =? 175)) ||
   (n1 =? 226) && (n2 =? 129) && (n3 =? 159) ||
   (n1 =? 227) && (n2 =? 128) && (n3 =? 128) ||
   (n1 =? 239) && (n2 =? 187) && (n3 =? 191))%N.

(** [e] is one white space character. *)
Definition white_space (e : string) : bool :=
  match e with
  | String c1 EmptyString => white_space_1 c1
  | String c1 (String c2 EmptyString) => white_space_2 c1 c2
  | String c1 (String c2 (String c3 EmptyString)) => white_space_3 c1 c2 c3
  | _ => false
  end.

(** Every character of [s] is white space. *)
Fixpoint all_white_space (s : string) : bool :=
  match s with
  | String c1 r1 =>
      if white_space_1 c1 then all_white_space r1 else
      match r1 with
      | String c2 r2 =>
          if white_space_2 c1 c2 then all_white_space r2 else
          match r2 with
          | String c3 r3 => white_space_3 c1 c2 c3 && all_white_space r3
          | EmptyString => false
          end
      | EmptyString => false
      end
  | EmptyString => true
  end.

(** [String.prototype.trimStart]: the white space at the head goes. *)
Fixpoint trimStart (s : string) : string :=
  match s with
  | String c1 r1 =>
      if white_space_1 c1 then trimStart r1 else
      match r1 with
      | String c2 r2 =>
          if white_space_2 c1 c2 then trimStart r2 else
          match r2 with
          | String c3 r3 => if white_space_3 c1 c2 c3 then trimStart r3 else s
          | EmptyString => s
          end
      | EmptyString => s
      end
  | EmptyString => EmptyString
  end.

(** [String.prototype.trimEnd]: the string up to where only white space
    follows. *)
Fixpoint trimEnd (s : string) : string :=
  if all_white_space s then EmptyString else
  match s with
  | String c r => String c (trimEnd r)
  | EmptyString => EmptyString
  end.

(** [String.prototype.trim]. *)
Definition trim (s : string) : string := trimEnd (trimStart s).

(** Every character of [s] is in Basic Latin (one byte each). *)
Fixpoint is_ascii (s : string) : bool :=
  match s with
  | String c r => (N_of_ascii c <? 128)%N && is_ascii r
  | EmptyString => true
  end.

(** The lower-case form of a Basic Latin string: [A-Z] go to [a-z]. *)
Definition ascii_lower (c : ascii) : ascii :=
  let n := N_of_ascii c in
  if ((65 <=? n) && (n <=? 90))%N then ascii_of_N (n + 32) else c.

Fixpoint ascii_toLowerCase (s : string) : string :=
  match s with
  | String c r => String (ascii_lower c) (ascii_toLowerCase r)
  | EmptyString => EmptyString
  end.

(** [s.includes(q)]: [q] occurs in [s] at some position. *)
Fixpoint includes (s q : string) : bool :=
  String.prefix q s ||
  match s with
  | String _ r => includes r q
  | EmptyString => false
  end.

(** ** Data model ([~/lib/models]) *)

Definition NoteID := string.

Module Note.
Record t := mk {
  id : NoteID;
  title : string;
  content : string;
  created_at : string;
  updated_at : string
}.
End Note.

Module NoteInput.
Record t := mk { title : string; content : string }.
End NoteInput.

Module User.
Record t := mk { id : string; email : string }.
End User.

Module Cred.
Record t := mk { email : string; password : string }.
End Cred.

(** The payload of [POST /auth/login] and [POST /auth/register]. *)
Module AuthData.
Record t := mk { token : string; user : User.t }.
End AuthData.

(** ** [Array.prototype.sort]: comparators

    A comparator returns a number, [None] standing for [NaN];
    [SortCompare] reads [NaN] as [+0]. *)
Definition comparator (A : Type) := A -> A -> option Z.

Definition sort_compare {A} (cmp : comparator A) (a b : A) : Z :=
  match cmp a b with
  | Some v => v
  | None => 0%Z
  end.

(** A consistent comparator for the elements of [l], in the sense of
    ECMAScript: it compares each element equal to itself, gives opposite
    signs to [(a, b)] and [(b, a)], and is transitive. *)
Definition consistent {A} (cmp : comparator A) (l : list A) : Prop :=
  ∀ a b c, a ∈ l → b ∈ l → c ∈ l →
    sort_compare cmp a a = 0%Z ∧
    ((sort_compare cmp a b < 0)%Z ↔ (0 < sort_compare cmp b a)%Z) ∧
    ((sort_compare cmp a b <= 0)%Z → (sort_compare cmp b c <= 0)%Z →
     (sort_compare cmp a c <= 0)%Z).

(** ** The engine

    [getTime s] is [new Date(s).getTime()]: the time value in milliseconds,
    or [None] when the date is invalid ([NaN]).  [JSON_stringify] and
    [JSON_parse] are the two functions of [JSON] at the type of a user.

    [toLowerCase] is [String.prototype.toLowerCase]: on a Basic Latin string
    it turns [A-Z] into [a-z], and it makes no string empty but the empty
    one; beyond that it follows Unicode, final sigma and all.

    [sort cmp l] is [l.sort(cmp)]: the elements of [l] in some order, which
    is the order of [cmp] where [cmp] is consistent for them and is left to
    the engine where it is not (a [NaN] from an invalid date, say). *)
Class Platform := {
  getTime : string -> option Z;
  JSON_stringify : User.t -> string;
  JSON_parse : string -> option User.t;
  toLowerCase : string -> string;
  toLowerCase_ascii :
    ∀ s, is_ascii s = true → toLowerCase s = ascii_toLowerCase s;
  toLowerCase_nonempty :
    ∀ s, toLowerCase s = EmptyString → s = EmptyString;
  sort : ∀ A : Type, comparator A -> list A -> list A;
  sort_Permutation :
    ∀ (A : Type) (cmp : comparator A) (l : list A), sort A cmp l ≡ₚ l;
  sort_consistent :
    ∀ (A : Type) (cmp : comparator A) (l : list A),
      consistent cmp l →
      Sorted (fun a b => (sort_compare cmp a b <= 0)%Z) (sort A cmp l)
}.
Arguments sort {_} {A} _ _.
Arguments sort_Permutation {_} {A} _ _.
Arguments sort_consistent {_} {A} _ _ _.

(** One engine's sort, by insertion: [a] stays before [b] unless the
    comparator is positive on [(a, b)]. *)
Fixpoint sort_insert {A} (cmp : comparator A) (x : A) (l : list A) : list A :=
  match l with
  | [] => [x]
  | y :: l' =>
      if (sort_compare cmp x y <=? 0)%Z then x :: l
      else y :: sort_insert cmp x l'
  end.

Fixpoint insertion_sort {A} (cmp : comparator A) (l : list A) : list A :=
  match l with
  | [] => []
  | x :: l' => sort_insert cmp x (insertion_sort cmp l')
  end.

(** Subtraction of two time values; [NaN] when either is. *)
Definition js_sub (x y : option Z) : option Z :=
  match x, y with
  | Some a, Some b => Some (a - b)%Z
  | _, _ => None
  end.

(** [(a, b) => new Date(b.updated_at).getTime() - new Date(a.updated_at).getTime()] *)
Definition by_updated_desc `{Platform} : comparator Note.t :=
  fun a b => js_sub (getTime (Note.updated_at b)) (getTime (Note.updated_at a)).

(** ** The HTTP client ([~/lib/http]) *)

(** Every call answers with the uniform result [{ ok, data?, error? }]. *)
Record ApiResult (T : Type) := {
  ok : bool;
  data : option T;
  error : option string
}.
Arguments ok {T} _.
Arguments data {T} _.
Arguments error {T} _.

Inductive Method := GET | POST | PUT | DELETE.

Inductive Body :=
| NoBody
| NoteBody (input : NoteInput.t)
| CredBody (cred : Cred.t).

(** One call of the client: what goes on the wire.  [bearer] is the value of
    the token signal handed over as [tokenSig], if any. *)
Record Request := {
  method : Method;
  path : string;
  body : Body;
  bearer : option string
}.

(** The client together with the backend behind it: an arbitrary answer to
    each request, at the type the caller instantiates the client with. *)
Class Backend := {
  answer_notes : Request -> ApiResult (list Note.t);
  answer_note : Request -> ApiResult Note.t;
  answer_void : Request -> ApiResult unit;
  answer_auth : Request -> ApiResult AuthData.t
}.

(** ** Signals *)

Inductive Mode := login | register.

(** The signals of the page component. *)
Record Page := {
  pg_token : option string;
  pg_notes : list Note.t;
  pg_loading : bool;
  pg_err : option string;
  pg_query : string;
  pg_activeId : option NoteID;
  pg_title : string;
  pg_content : string
}.

(** The signals of the authentication overlay. *)
Record Overlay := {
  ov_mode : Mode;
  ov_email : string;
  ov_password : string;
  ov_error : option string;
  ov_loading : bool
}.

(** The signals of the auth provider ([~/lib/auth]). *)
Record AuthStore := {
  au_token : option string;
  au_user : option User.t
}.

(** Everything a handler can read and assign.  [localStorage] is [None]
    where [typeof window] is ["undefined"]. *)
Record World := {
  page : Page;
  overlay : Overlay;
  auth : AuthStore;
  localStorage : option (gmap string string)
}.

Definition on_page (f : Page -> Page) (w : World) : World :=
  {| page := f (page w); overlay := overlay w; auth := auth w;
     localStorage := localStorage w |}.

Definition on_overlay (f : Overlay -> Overlay) (w : World) : World :=
  {| page := page w; overlay := f (overlay w); auth := auth w;
     localStorage := localStorage w |}.

Definition on_auth (f : AuthStore -> AuthStore) (w : World) : World :=
  {| page := page w; overlay := overlay w; auth := f (auth w);
     localStorage := localStorage w |}.

Definition on_localStorage (f : gmap string string -> gmap string string) (w : World) : World :=
  {| page := page w; overlay := overlay w; auth := auth w;
     localStorage := f <$> localStorage w |}.

(** A signal: [value s w] is [s.value] in the world [w], [assign s v w] is
    the world after [s.value = v]. *)
Record Signal (T : Type) := {
  value : World -> T;
  assign : T -> World -> World
}.
Arguments value {T} _ _.
Arguments assign {T} _ _ _.

Definition token : Signal (option string) := {|
  value w := pg_token (page w);
  assign v := on_page (fun p =>
    {| pg_token := v; pg_notes := pg_notes p; pg_loading := pg_loading p;
       pg_err := pg_err p; pg_query := pg_query p; pg_activeId := pg_activeId p;
       pg_title := pg_title p; pg_content := pg_content p |}) |}.

Definition notes : Signal (list Note.t) := {|
  value w := pg_notes (page w);
  assign v := on_page (fun p =>
    {| pg_token := pg_token p; pg_notes := v; pg_loading := pg_loading p;
       pg_err := pg_err p; pg_query := pg_query p; pg_activeId := pg_activeId p;
       pg_title := pg_title p; pg_content := pg_content p |}) |}.

Definition loading : Signal bool := {|
  value w := pg_loading (page w);
  assign v := on_page (fun p =>
    {| pg_token := pg_token p; pg_notes := pg_notes p; pg_loading := v;
       pg_err := pg_err p; pg_query := pg_query p; pg_activeId := pg_activeId p;
       pg_title := pg_title p; pg_content := pg_content p |}) |}.

Definition err : Signal (option string) := {|
  value w := pg_err (page w);
  assign v := on_page (fun p =>
    {| pg_token := pg_token p; pg_notes := pg_notes p; pg_loading := pg_loading p;
       pg_err := v; pg_query := pg_query p; pg_activeId := pg_activeId p;
       pg_title := pg_title p; pg_content := pg_content p |}) |}.

Definition query : Signal string := {|
  value w := pg_query (page w);
  assign v := on_page (fun p =>
    {| pg_token := pg_token p; pg_notes := pg_notes p; pg_loading := pg_loading p;
       pg_err := pg_err p; pg_query := v; pg_activeId := pg_activeId p;
       pg_title := pg_title p; pg_content := pg_content p |}) |}.

Definition activeId : Signal (option NoteID) := {|
  value w := pg_activeId (page w);
  assign v := on_page (fun p =>
    {| pg_token := pg_token p; pg_notes := pg_notes p; pg_loading := pg_loading p;
       pg_err := pg_err p; pg_query := pg_query p; pg_activeId := v;
       pg_title := pg_title p; pg_content := pg_content p |}) |}.

Definition title : Signal string := {|
  value w := pg_title (page w);
  assign v := on_page (fun p =>
    {| pg_token := pg_token p; pg_notes := pg_notes p; pg_loading := pg_loading p;
       pg_err := pg_err p; pg_query := pg_query p; pg_activeId := pg_activeId p;
       pg_title := v; pg_content := pg_content p |}) |}.

Definition content : Signal string := {|
  value w := pg_content (page w);
  assign v := on_page (fun p =>
    {| pg_token := pg_token p; pg_notes := pg_notes p; pg_loading := pg_loading p;
       pg_err := pg_err p; pg_query := pg_query p; pg_activeId := pg_activeId p;
       pg_title := pg_title p; pg_content := v |}) |}.

(** [auth.token] and [auth.user]. *)
Definition auth_token : Signal (option string) := {|
  value w := au_token (auth w);
  assign v := on_auth (fun a => {| au_token := v; au_user := au_user a |}) |}.

Definition auth_user : Signal (option User.t) := {|
  value w := au_user (auth w);
  assign v := on_auth (fun a => {| au_token := au_token a; au_user := v |}) |}.

Module AuthOverlay.

Definition mode : Signal Mode := {|
  value w := ov_mode (overlay w);
  assign v := on_overlay (fun o =>
    {| ov_mode := v; ov_email := ov_email o; ov_password := ov_password o;
       ov_error := ov_error o; ov_loading := ov_loading o |}) |}.

Definition email : Signal string := {|
  value w := ov_email (overlay w);
  assign v := on_overlay (fun o =>
    {| ov_mode := ov_mode o; ov_email := v; ov_password := ov_password o;
       ov_error := ov_error o; ov_loading := ov_loading o |}) |}.

Definition password : Signal string := {|
  value w := ov_password (overlay w);
  assign v := on_overlay (fun o =>
    {| ov_mode := ov_mode o; ov_email := ov_email o; ov_password := v;
       ov_error := ov_error o; ov_loading := ov_loading o |}) |}.

Definition error : Signal (option string) := {|
  value w := ov_error (overlay w);
  assign v := on_overlay (fun o =>
    {| ov_mode := ov_mode o; ov_email := ov_email o; ov_password := ov_password o;
       ov_error := v; ov_loading := ov_loading o |}) |}.

Definition loading : Signal bool := {|
  value w := ov_loading (overlay w);
  assign v := on_overlay (fun o =>
    {| ov_mode := ov_mode o; ov_email := ov_email o; ov_password := ov_password o;
       ov_error := ov_error o; ov_loading := v |}) |}.

End AuthOverlay.

(** ** The monad of handlers *)

(** What running a handler gives: the requests it sent, oldest first, and
    either its result with the next world or, on an uncaught [TypeError],
    nothing.  The requests are on the wire whether or not it returns. *)
Record Outcome (A : Type) := {
  calls : list Request;
  returned : option (A * World)
}.
Arguments calls {A} _.
Arguments returned {A} _.

Definition M (A : Type) : Type := World -> Outcome A.

Definition ret {A} (a : A) : M A :=
  fun w => {| calls := []; returned := Some (a, w) |}.

Definition bind {A B} (c : M A) (k : A -> M B) : M B :=
  fun w =>
    let o := c w in
    match returned o with
    | Some (a, w') =>
        let o' := k a w' in
        {| calls := calls o ++ calls o'; returned := returned o' |}
    | None => {| calls := calls o; returned := None |}
    end.

Definition throw {A} : M A :=
  fun _ => {| calls := []; returned := None |}.

Declare Scope handler_scope.
Delimit Scope handler_scope with handler.
Bind Scope handler_scope with M.
Notation "x <- c ;; k" := (bind c (fun x => k))
  (at level 100, c at next level, right associativity) : handler_scope.
Notation "c ;; k" := (bind c (fun _ => k))
  (at level 100, right associativity) : handler_scope.
Local Open Scope handler_scope.

(** [s.value] *)
Definition read {T} (s : Signal T) : M T := fun w => ret (value s w) w.

(** [s.value = v] *)
Definition store {T} (s : Signal T) (v : T) : M unit := fun w => ret tt (assign s v w).

Notation "s ::= v" := (store s v) (at level 65, no associativity) : handler_scope.

(** [v!.field]: property access after a non-null assertion throws when the
    value is missing. *)
Definition nonnull {T} (v : option T) : M T :=
  match v with
  | Some x => ret x
  | None => throw
  end.

(** [window.localStorage.setItem(k, v)] behind the [typeof window] test. *)
Definition setItem (k v : string) : M unit :=
  fun w => ret tt (on_localStorage (fun ls => <[k := v]> ls) w).

(** [await api.m(path, body, { tokenSig })]: one request goes out, the
    answer comes back. *)
Definition api {T} (answer : Request -> ApiResult T) (m : Method) (p : string)
    (b : Body) (tokenSig : option (Signal (option string))) : M (ApiResult T) :=
  fun w =>
    let rq := {| method := m; path := p; body := b;
                 bearer := match tokenSig with
                           | Some tok => value tok w
                           | None => None
                           end |} in
    {| calls := [rq]; returned := Some (answer rq, w) |}.

(** [window.localStorage.getItem(k)]; nothing is there without a window. *)
Definition getItem (k : string) : M (option string) :=
  fun w => ret (localStorage w ≫= (fun ls => ls !! k)) w.

(** [l.length] as a condition. *)
Definition nonempty {A} (l : list A) : bool := negb (Nat.eqb (length l) 0).

(** ** The page component *)

(** The task that derives [token] from [auth.token]. *)
Definition syncToken : M unit :=
  t <- read auth_token ;;
  token ::= t.

Definition loadNotes `{Platform, Backend} : M unit :=
  t <- read token ;;
  if negb (truthy_opt t) then ret tt else
  loading ::= true ;;
  err ::= None ;;
  res <- api answer_notes GET "/notes" NoBody (Some token) ;;
  loading ::= false ;;
  if negb (ok res) then
    err ::= Some (or_str (error res) "Failed to load notes")
  else
  notes ::= sort by_updated_desc (or_obj (data res) []) ;;
  a <- read activeId ;;
  ns <- read notes ;;
  if negb (truthy_opt a) && nonempty ns then
    first <- nonnull (head ns) ;;
    activeId ::= Some (Note.id first) ;;
    title ::= Note.title first ;;
    content ::= Note.content first
  else ret tt.

(** [useVisibleTask$]: load once the page is visible and a token is there. *)
Definition onVisible `{Platform, Backend} : M unit :=
  t <- read auth_token ;;
  if truthy_opt t then loadNotes else ret tt.

(** The task that tracks [activeId]: when it changes, update the editor
    fields. *)
Definition onActiveIdChange : M unit :=
  a <- read activeId ;;
  ns <- read notes ;;
  match List.find (fun n0 => strict_eq (Note.id n0) a) ns with
  | Some n =>
      title ::= Note.title n ;;
      content ::= Note.content n
  | None =>
      title ::= "" ;;
      content ::= ""
  end.

Definition selectNote (id : NoteID) : M unit :=
  activeId ::= Some id.

Definition newNote `{Backend} : M unit :=
  let input := NoteInput.mk "Untitled" "" in
  res <- api answer_note POST "/notes" (NoteBody input) (Some token) ;;
  if negb (ok res) then
    err ::= Some (or_str (error res) "Failed to create note")
  else
  created <- nonnull (data res) ;;
  ns <- read notes ;;
  notes ::= created :: ns ;;
  activeId ::= Some (Note.id created) ;;
  title ::= Note.title created ;;
  content ::= Note.content created.

Definition saveNote `{Platform, Backend} : M unit :=
  a <- read activeId ;;
  if negb (truthy_opt a) then newNote else
  t <- read title ;;
  c <- read content ;;
  let input := NoteInput.mk (or_else (trim t) "Untitled") c in
  res <- api answer_note PUT ("/notes/" ++ template a) (NoteBody input) (Some token) ;;
  if negb (ok res) then
    err ::= Some (or_str (error res) "Failed to save note")
  else
  updated <- nonnull (data res) ;;
  ns <- read notes ;;
  notes ::= sort by_updated_desc
              (map (fun n => if String.eqb (Note.id n) (Note.id updated) then updated else n) ns) ;;
  title ::= Note.title updated ;;
  content ::= Note.content updated.

Definition deleteNote `{Backend} : M unit :=
  a <- read activeId ;;
  if negb (truthy_opt a) then ret tt else
  let id := a in
  res <- api answer_void DELETE ("/notes/" ++ template id) NoBody (Some token) ;;
  if negb (ok res) then
    err ::= Some (or_str (error res) "Failed to delete note")
  else
  ns <- read notes ;;
  notes ::= List.filter (fun n => negb (strict_eq (Note.id n) id)) ns ;;
  ns' <- read notes ;;
  if nonempty ns' then
    first <- nonnull (head ns') ;;
    activeId ::= Some (Note.id first) ;;
    title ::= Note.title first ;;
    content ::= Note.content first
  else
    activeId ::= None ;;
    title ::= "" ;;
    content ::= "".

(** An event as the framework runs it: the handler, then the [activeId]
    task if the handler left [activeId] changed. *)
Definition dispatch (handler : M unit) : M unit :=
  before <- read activeId ;;
  handler ;;
  after <- read activeId ;;
  if decide (after = before) then ret tt else onActiveIdChange.

(** ** The sidebar *)

(** The list the sidebar renders. *)
Definition filtered `{Platform} (w : World) : list Note.t :=
  if truthy (value query w) then
    List.filter
      (fun n =>
         includes (toLowerCase (Note.title n)) (toLowerCase (value query w)) ||
         includes (toLowerCase (Note.content n)) (toLowerCase (value query w)))
      (value notes w)
  else value notes w.

(** What one item of the list shows as its title: [n.title || "Untitled"]. *)
Definition item_title (n : Note.t) : string := or_else (Note.title n) "Untitled".

(** The class of one item:
    ["note-item " + (props.activeId.value === n.id ? "active" : "")]. *)
Definition item_class (w : World) (n : Note.t) : string :=
  "note-item " ++ (if strict_eq (Note.id n) (value activeId w) then "active" else "").

(** The error line of the sidebar is rendered: [props.error.value && ...]. *)
Definition shows_error (w : World) : bool := truthy_opt (value err w).

(** The input handlers: search box, title input, content area. *)
Definition onQueryInput (v : string) : M unit := query ::= v.
Definition onTitleInput (v : string) : M unit := title ::= v.
Definition onContentInput (v : string) : M unit := content ::= v.

(** ** The header and the overlay's place on the page *)

(** The overlay is rendered: [!auth.token.value && <AuthOverlay />]. *)
Definition shows_overlay (w : World) : bool := negb (truthy_opt (value auth_token w)).

(** The logout button is rendered: [auth.token.value ? <button> : null]. *)
Definition shows_logout (w : World) : bool := truthy_opt (value auth_token w).

(** The e-mail the header shows: [auth.user.value && auth.user.value.email]. *)
Definition header_email (w : World) : option string := User.email <$> value auth_user w.

(** ** The authentication overlay *)

(** [submit$] of the overlay. *)
Definition submit `{Platform, Backend} : M unit :=
  AuthOverlay.loading ::= true ;;
  AuthOverlay.error ::= None ;;
  e <- read AuthOverlay.email ;;
  p <- read AuthOverlay.password ;;
  let cred := Cred.mk (trim e) p in
  m <- read AuthOverlay.mode ;;
  let path := match m with login => "/auth/login" | register => "/auth/register" end in
  res <- api answer_auth POST path (CredBody cred) None ;;
  AuthOverlay.loading ::= false ;;
  if negb (ok res) || negb (present (data res)) then
    AuthOverlay.error ::= Some (or_str (error res) "Authentication failed")
  else
  d <- nonnull (data res) ;;
  auth_token ::= Some (AuthData.token d) ;;
  auth_user ::= Some (AuthData.user d) ;;
  setItem "auth_token" (AuthData.token d) ;;
  setItem "auth_user" (JSON_stringify (AuthData.user d)).

(** The error line of the overlay is rendered: [error.value && ...]. *)
Definition overlay_shows_error (w : World) : bool :=
  truthy_opt (value AuthOverlay.error w).

(** The second button of the overlay switches between the two modes. *)
Definition toggleMode : M unit :=
  m <- read AuthOverlay.mode ;;
  AuthOverlay.mode ::= match m with login => register | register => login end.

(** ** The auth provider *)

(** Modelled from the spec: the restore step of the auth provider
    ([useAuthProvider] of [~/lib/auth], which is not among the sources).  The
    session is persisted under the two keys [auth_token] and [auth_user] and
    restored at startup; absence of either invalidates the session.  A stored
    user that does not parse is taken as absent. *)
Definition restoreSession `{Platform} : M unit :=
  t <- getItem "auth_token" ;;
  u <- getItem "auth_user" ;;
  match t, u ≫= JSON_parse with
  | Some tok, Some usr =>
      auth_token ::= Some tok ;;
      auth_user ::= Some usr
  | _, _ =>
      auth_token ::= None ;;
      auth_user ::= None
  end.

(** ** One platform and one family of backends, for the examples *)

Definition digit (c : ascii) : option Z :=
  let n := N_of_ascii c in
  if ((48 <=? n) && (n <=? 57))%N then Some (Z.of_N n - 48)%Z else None.

(** The number a string of decimal digits denotes, read after [acc]. *)
Fixpoint digits_from (acc : Z) (s : string) : option Z :=
  match s with
  | String c r =>
      match digit c with
      | Some d => digits_from (10 * acc + d) r
      | None => None
      end
  | EmptyString => Some acc
  end.

Definition digits (s : string) : option Z :=
  match s with
  | EmptyString => None
  | _ => digits_from 0 s
  end.

Definition is_leap (y : Z) : bool :=
  ((y mod 4 =? 0) && negb (y mod 100 =? 0) || (y mod 400 =? 0))%Z.

Definition days_in_month (y m : Z) : Z :=
  (if m =? 2 then (if is_leap y then 29 else 28)
   else if (m =? 4) || (m =? 6) || (m =? 9) || (m =? 11) then 30
   else 31)%Z.

(** Days from 1970-01-01 to the civil date [y]-[m]-[d]. *)
Definition days_from_civil (y m d : Z) : Z :=
  (let y' := if m <=? 2 then y - 1 else y in
   let era := y' / 400 in
   let yoe := y' - era * 400 in
   let doy := (153 * (if 2 <? m then m - 3 else m + 9) + 2) / 5 + d - 1 in
   let doe := yoe * 365 + yoe / 4 - yoe / 100 + doy in
   era * 146097 + doe - 719468)%Z.

Definition char_at (s : string) (i : nat) (c : ascii) : bool :=
  match String.get i s with
  | Some c' => Ascii.eqb c' c
  | None => false
  end.

(** The time value of a string in the format of [Date.prototype.toISOString],
    [YYYY-MM-DDTHH:mm:ss.sssZ]; every other string is an invalid date here. *)
Definition iso_getTime (s : string) : option Z :=
  if Nat.eqb (String.length s) 24
     && char_at s 4 "-" && char_at s 7 "-" && char_at s 10 "T"
     && char_at s 13 ":" && char_at s 16 ":" && char_at s 19 "." && char_at s 23 "Z"
  then
    y ← digits (substring 0 4 s);
    m ← digits (substring 5 2 s);
    d ← digits (substring 8 2 s);
    hh ← digits (substring 11 2 s);
    mm ← digits (substring 14 2 s);
    ss ← digits (substring 17 2 s);
    ms ← digits (substring 20 3 s);
    if ((1 <=? m) && (m <=? 12) && (1 <=? d) && (d <=? days_in_month y m)
        && (hh <=? 23) && (mm <=? 59) && (ss <=? 59))%Z
    then Some (days_from_civil y m d * 86400000
               + hh * 3600000 + mm * 60000 + ss * 1000 + ms)%Z
    else None
  else None.

(** A stand-in for [JSON] on users: the two fields, each behind its length
    in decimal and a colon. *)
Definition show_nat (n : nat) : string := pretty n.

Definition frame_field (s : string) : string :=
  show_nat (String.length s) ++ ":" ++ s.

Definition frame_user (u : User.t) : string :=
  frame_field (User.id u) ++ frame_field (User.email u).

(** Split [s] at its first colon. *)
Fixpoint cut_colon (s : string) : option (string * string) :=
  match s with
  | String c r =>
      if Ascii.eqb c ":" then Some (EmptyString, r)
      else '(a, b) ← cut_colon r; Some (String c a, b)
  | EmptyString => None
  end.

Definition unframe_field (s : string) : option (string * string) :=
  '(len, r) ← cut_colon s;
  n ← digits len;
  let k := Z.to_nat n in
  if Nat.leb k (String.length r)
  then Some (substring 0 k r, substring k (String.length r - k) r)
  else None.

Definition unframe_user (s : string) : option User.t :=
  '(i, r) ← unframe_field s;
  '(e, r') ← unframe_field r;
  if String.eqb r' EmptyString then Some (User.mk i e) else None.

(** A lower-casing for the examples.  It knows the letters of Basic Latin,
    of the Latin-1 Supplement (two bytes, [C3 80..BF]) and of Greek (two
    bytes, [CE 91..BF] and [CF 80..89]), and turns a capital sigma that ends
    a word into the final sigma; every other byte it leaves alone. *)
Definition basic_latin_letter (c : ascii) : bool :=
  let n := N_of_ascii c in
  ((65 <=? n) && (n <=? 90) || (97 <=? n) && (n <=? 122))%N.

(** The two bytes are a letter of the Latin-1 Supplement (U+00C0..U+00FF but
    the signs U+00D7 and U+00F7) or of Greek (U+0391..U+03C9). *)
Definition two_byte_letter (c1 c2 : ascii) : bool :=
  let n1 := N_of_ascii c1 in
  let n2 := N_of_ascii c2 in
  ((n1 =? 195) && (128 <=? n2) && (n2 <=? 191) && negb (n2 =? 151) && negb (n2 =? 183) ||
   (n1 =? 206) && (145 <=? n2) && (n2 <=? 191) && negb (n2 =? 162) ||
   (n1 =? 207) && (128 <=? n2) && (n2 <=? 137))%N.

Definition starts_with_letter (s : string) : bool :=
  match s with
  | String c1 r1 =>
      basic_latin_letter c1 ||
      match r1 with
      | String c2 _ => two_byte_letter c1 c2
      | EmptyString => false
      end
  | EmptyString => false
  end.

(** The lower-case form of [s], read after a letter or not. *)
Fixpoint lower_from (after_letter : bool) (s : string) : string :=
  match s with
  | String c1 r1 =>
      let n1 := N_of_ascii c1 in
      if (n1 <? 128)%N then
        String (ascii_lower c1) (lower_from (basic_latin_letter c1) r1)
      else
        match r1 with
        | String c2 r2 =>
            let n2 := N_of_ascii c2 in
            if ((n1 =? 195) && (128 <=? n2) && (n2 <=? 158) && negb (n2 =? 151))%N then
              (* U+00C0..U+00DE to U+00E0..U+00FE *)
              String c1 (String (ascii_of_N (n2 + 32)) (lower_from true r2))
            else if ((n1 =? 206) && (145 <=? n2) && (n2 <=? 159))%N then
              (* U+0391..U+039F to U+03B1..U+03BF *)
              String c1 (String (ascii_of_N (n2 + 32)) (lower_from true r2))
            else if ((n1 =? 206) && (n2 =? 163))%N then
              (* U+03A3 to U+03C2 at the end of a word, to U+03C3 elsewhere *)
              String (ascii_of_N 207)
                (String (ascii_of_N (if after_letter && negb (starts_with_letter r2)
                                     then 130 else 131))
                   (lower_from true r2))
            else if ((n1 =? 206) && (160 <=? n2) && (n2 <=? 169))%N then
              (* U+03A0..U+03A9 to U+03C0..U+03C9 *)
              String (ascii_of_N 207) (String (ascii_of_N (n2 - 32)) (lower_from true r2))
            else if two_byte_letter c1 c2 then
              String c1 (String c2 (lower_from true r2))
            else String c1 (lower_from false r1)
        | EmptyString => String c1 EmptyString
        end
  | EmptyString => EmptyString
  end.

Definition example_toLowerCase (s : string) : string := lower_from false s.

#[local] Obligation Tactic := idtac.

(** The platform of the examples: dates in the format of [toISOString], the
    frames for [JSON], the lower-casing above and the insertion sort, which
    keep the contracts of [String.prototype.toLowerCase] and
    [Array.prototype.sort]. *)
Program Definition example_platform : Platform := {|
  getTime := iso_getTime;
  JSON_stringify := frame_user;
  JSON_parse := unframe_user;
  toLowerCase := example_toLowerCase;
  sort := @insertion_sort
|}.
Next Obligation.
  (* on Basic Latin, [A-Z] to [a-z] *)
  intros s. unfold example_toLowerCase. generalize false as after_letter.
  induction s as [|c s IH]; intros after_letter; [done|].
  cbn [is_ascii lower_from ascii_toLowerCase]. intros [Hc Hs]%andb_true_iff.
  cbv zeta. rewrite Hc. by rewrite IH.
Qed.
Next Obligation.
  (* no string but the empty one becomes empty *)
  intros s. unfold example_toLowerCase. generalize false as after_letter.
  intros after_letter.
  destruct s as [|c1 [|c2 r2]]; [done| |]; cbn [lower_from]; cbv zeta;
    repeat match goal with
           | |- context [if ?b then _ else _] => destruct b
           end; discriminate.
Qed.
Next Obligation.
  (* the sort permutes *)
  intros A cmp l.
  assert (Hinsert : ∀ x l', sort_insert cmp x l' ≡ₚ x :: l').
  { intros x l'. induction l' as [|y l' IH]; cbn; [done|].
    destruct (sort_compare cmp x y <=? 0)%Z; [done|].
    rewrite IH. apply Permutation_swap. }
  induction l as [|x l IH]; cbn; [done|]. by rewrite Hinsert, IH.
Qed.
Next Obligation.
  (* a consistent comparator is obeyed *)
  intros A cmp l Hcmp.
  set (R := fun a b => (sort_compare cmp a b <= 0)%Z).
  assert (Hperm : ∀ l', insertion_sort cmp l' ≡ₚ l').
  { assert (Hinsert : ∀ x l', sort_insert cmp x l' ≡ₚ x :: l').
    { intros x l'. induction l' as [|y l' IH]; cbn; [done|].
      destruct (sort_compare cmp x y <=? 0)%Z; [done|].
      rewrite IH. apply Permutation_swap. }
    induction l' as [|x l' IH]; cbn; [done|]. by rewrite Hinsert, IH. }
  assert (Hhd : ∀ a x l', R a x → HdRel R a l' → HdRel R a (sort_insert cmp x l')).
  { intros a x l' Hax Hal. destruct l' as [|y l']; cbn; [by constructor|].
    destruct (sort_compare cmp x y <=? 0)%Z; constructor; [done|].
    by inversion Hal. }
  assert (Hinsert : ∀ x l', x ∈ l → Forall (.∈ l) l' → Sorted R l' →
                            Sorted R (sort_insert cmp x l')).
  { intros x l' Hx Hl' Hs. induction Hs as [|y l' Hs IH Hy]; cbn.
    - by repeat constructor.
    - inversion Hl' as [|? ? Hyl Hl'']; subst.
      destruct (Z.leb_spec (sort_compare cmp x y) 0) as [Hle|Hgt].
      + constructor; [by constructor|]. by constructor.
      + constructor; [by apply IH|].
        apply Hhd; [|done]. unfold R.
        destruct (Hcmp y x x Hyl Hx Hx) as (_ & Hsign & _). lia. }
  assert (Hall : ∀ l', Forall (.∈ l) l' → Sorted R (insertion_sort cmp l')).
  { induction 1 as [|x l' Hx Hl' IH]; cbn; [constructor|].
    apply Hinsert; [done| |done]. by rewrite Hperm. }
  apply Hall. by apply Forall_forall.
Qed.

(** The backend that gives the same answer to every request of a kind. *)
Definition constant_backend (rs : ApiResult (list Note.t)) (r : ApiResult Note.t)
    (rv : ApiResult unit) (ra : ApiResult AuthData.t) : Backend := {|
  answer_notes _ := rs;
  answer_note _ := r;
  answer_void _ := rv;
  answer_auth _ := ra
|}.

Definition failure {T} (e : option string) : ApiResult T :=
  {| ok := false; data := None; error := e |}.

Definition success {T} (d : T) : ApiResult T :=
  {| ok := true; data := Some d; error := None |}.

(** The world of a page that has just been opened. *)
Definition initial : World := {|
  page := {| pg_token := None; pg_notes := []; pg_loading := false; pg_err := None;
             pg_query := ""; pg_activeId := None; pg_title := ""; pg_content := "" |};
  overlay := {| ov_mode := login; ov_email := ""; ov_password := "";
                ov_error := None; ov_loading := false |};
  auth := {| au_token := None; au_user := None |};
  localStorage := Some ∅
|}.

(** ** Predicates of the specification *)

(** [x >= y] on time values: false as soon as one of them is [NaN]. *)
Definition js_ge (x y : option Z) : bool :=
  match x, y with
  | Some a, Some b => (b <=? a)%Z
  | _, _ => false
  end.

(** [a.updated_at] is a valid date. *)
Definition valid_date `{Platform} (n : Note.t) : Prop :=
  is_Some (getTime (Note.updated_at n)).

(** [a] was updated at the time [b] was, or later. *)
Definition newer_or_equal `{Platform} (a b : Note.t) : Prop :=
  js_ge (getTime (Note.updated_at a)) (getTime (Note.updated_at b)) = true.

(** Descending by [updated_at]: every note is [newer_or_equal] than the one
    after it. *)
Definition sorted_desc `{Platform} (l : list Note.t) : Prop :=
  Sorted newer_or_equal l.

(** [q] occurs in [s]. *)
Definition substring_of (q s : string) : Prop := ∃ a b, s = a ++ q ++ b.

(** [c] and [d] are the same character, or the same letter of [A-Z] and
    [a-z] in its two cases. *)
Definition same_letter (c d : ascii) : bool :=
  let n := N_of_ascii c in
  let m := N_of_ascii d in
  ((n =? m) ||
   (65 <=? n) && (n <=? 90) && (m =? n + 32) ||
   (65 <=? m) && (m <=? 90) && (n =? m + 32))%N.

(** [a] and [b] are the same string up to the case of the letters [A-Z] and
    [a-z]. *)
Fixpoint eq_ignoring_case (a b : string) : bool :=
  match a, b with
  | String c a', String d b' => same_letter c d && eq_ignoring_case a' b'
  | EmptyString, EmptyString => true
  | _, _ => false
  end.

(** [q] occurs in [s] when the case of the letters [A-Z] and [a-z] is
    ignored: some stretch of [s] is [q] up to their case. *)
Definition ci_substring (q s : string) : Prop :=
  ∃ a m b, s = a ++ m ++ b ∧ eq_ignoring_case m q = true.

(** [s] neither starts nor ends with a white space character. *)
Definition no_outer_white_space (s : string) : Prop :=
  ∀ e r, white_space e = true → s ≠ e ++ r ∧ s ≠ r ++ e.

(** The message a failed call leaves on screen: the error string of the
    answer when there is one and it is not empty, else the fallback. *)
Definition message_or (e : option string) (fallback : string) : string :=
  match e with
  | Some EmptyString => fallback
  | Some s => s
  | None => fallback
  end.

(** The path [submit$] posts to. *)
Definition auth_path (m : Mode) : string :=
  match m with
  | login => "/auth/login"
  | register => "/auth/register"
  end.

(** A request of the page: the token signal goes along. *)
Definition request (m : Method) (p : string) (b : Body) (w : World) : Request :=
  {| method := m; path := p; body := b; bearer := value token w |}.

(** The requests of the four handlers in the world [w]. *)
Definition load_request : World -> Request :=
  request GET "/notes" NoBody.

Definition create_request : World -> Request :=
  request POST "/notes" (NoteBody (NoteInput.mk "Untitled" "")).

Definition update_request (id : NoteID) (t c : string) : World -> Request :=
  request PUT ("/notes/" ++ id) (NoteBody (NoteInput.mk t c)).

Definition delete_request (id : NoteID) : World -> Request :=
  request DELETE ("/notes/" ++ id) NoBody.

(** The request of the overlay: no token goes along. *)
Definition auth_request (p : string) (e pw : string) : Request :=
  {| method := POST; path := p; body := CredBody (Cred.mk e pw); bearer := None |}.

(** A handler that returns in the world [w'] after the requests [rqs]. *)
Definition returns (o : Outcome unit) (rqs : list Request) (w' : World) : Prop :=
  o = {| calls := rqs; returned := Some (tt, w') |}.

(** ** Example data *)

Definition groceries : Note.t :=
  Note.mk "n1" "Groceries" "milk, eggs"
    "2024-01-01T09:00:00.000Z" "2024-01-01T09:00:00.000Z".

Definition ideas : Note.t :=
  Note.mk "n2" "Ideas" "a Reading LIST"
    "2024-01-02T10:30:00.000Z" "2024-01-02T10:30:00.000Z".

Definition travel : Note.t :=
  Note.mk "n3" "Travel" "book the train"
    "2023-12-24T18:00:00.000Z" "2024-01-03T08:15:00.000Z".

(** A created note that the backend stamps with a time before [ideas]. *)
Definition untitled_early : Note.t :=
  Note.mk "n4" "Untitled" ""
    "2024-01-01T00:00:00.000Z" "2024-01-01T00:00:00.000Z".

(** A created note that the backend stamps with a time after [travel]. *)
Definition untitled_late : Note.t :=
  Note.mk "n5" "Untitled" ""
    "2024-01-04T00:00:00.000Z" "2024-01-04T00:00:00.000Z".

(** [ideas] after an edit. *)
Definition ideas_edited : Note.t :=
  Note.mk "n2" "Ideas" "a reading list, and a film"
    "2024-01-02T10:30:00.000Z" "2024-01-05T12:00:00.000Z".

(** A note whose [updated_at] is no date. *)
Definition undated : Note.t :=
  Note.mk "n6" "Draft" "" "2024-01-01T00:00:00.000Z" "soon".

(** A copy of [ideas] that lost its date. *)
Definition stale : Note.t :=
  Note.mk "n2" "Ideas" "a Reading LIST" "2024-01-02T10:30:00.000Z" "soon".

(** A note with a Greek title, in capitals, that ends in a sigma. *)
Definition odos : Note.t :=
  Note.mk "n7" "ΟΔΟΣ" "" "2024-01-06T07:45:00.000Z" "2024-01-06T07:45:00.000Z".

Definition ann : User.t := User.mk "u1" "ann@example.org".

(** A signed-in page with the given list, selection and editor fields. *)
Definition signed_in (ns : list Note.t) (a : option NoteID) (t c : string) : World := {|
  page := {| pg_token := Some "secret"; pg_notes := ns; pg_loading := false;
             pg_err := None; pg_query := ""; pg_activeId := a;
             pg_title := t; pg_content := c |};
  overlay := overlay initial;
  auth := {| au_token := Some "secret"; au_user := Some ann |};
  localStorage := Some (<["auth_user" := frame_user ann]> (<["auth_token" := "secret"]> ∅))
|}.

(** The overlay with the form filled in, nobody signed in. *)
Definition signing_in : World := {|
  page := page initial;
  overlay := {| ov_mode := login; ov_email := " ann@example.org "; ov_password := "hunter2";
                ov_error := None; ov_loading := false |};
  auth := auth initial;
  localStorage := Some ∅
|}.

(** A page just opened in a browser that holds the given local storage. *)
Definition reopened (ls : gmap string string) : World := {|
  page := page initial;
  overlay := overlay initial;
  auth := auth initial;
  localStorage := Some ls
|}.

(** A page with the given query typed into the search box. *)
Definition searching (q : string) (ns : list Note.t) : World :=
  assign query q (signed_in ns None "" "").

(** Backends for the examples: one answer, whatever the request. *)
Definition answering_notes (r : ApiResult (list Note.t)) : Backend :=
  constant_backend r (failure None) (failure None) (failure None).

Definition answering_note (r : ApiResult Note.t) : Backend :=
  constant_backend (failure None) r (failure None) (failure None).

Definition answering_void (r : ApiResult unit) : Backend :=
  constant_backend (failure None) (failure None) r (failure None).

Definition answering_auth (r : ApiResult AuthData.t) : Backend :=
  constant_backend (failure None) (failure None) (failure None) r.

(** ** Further predicates and example data *)

(** [a] was updated before [b], both at valid dates. *)
Definition strictly_older `{Platform} (a b : Note.t) : Prop :=
  ∃ ta tb, getTime (Note.updated_at a) = Some ta ∧
           getTime (Note.updated_at b) = Some tb ∧ (ta < tb)%Z.

(** A signed-in page that still shows the message of an earlier failure. *)
Definition after_failure (msg : string) (ns : list Note.t) (a : option NoteID)
    (t c : string) : World :=
  assign err (Some msg) (signed_in ns a t c).

(** A page opened without a session. *)
Definition signed_out : World := reopened ∅.

(** A session as the backend grants it. *)
Definition granted : AuthData.t := AuthData.mk "secret" ann.

(** A backend that answers every kind of request with success. *)
Definition obliging (ns : list Note.t) (n : Note.t) : Backend :=
  constant_backend (success ns) (success n)
    {| ok := true; data := None; error := None |} (success granted).

(** An answer that is [ok] and carries nothing. *)
Definition hollow {T} : ApiResult T := {| ok := true; data := None; error := None |}.

(** * Properties *)

(** ** Running a handler *)

Ltac run :=
  cbv [loadNotes newNote saveNote deleteNote onVisible onActiveIdChange selectNote
       syncToken submit restoreSession dispatch];
  cbv beta iota zeta delta [bind ret read store api nonnull throw setItem getItem calls returned].

Lemma newNote_run `{Backend} (w : World) :
  let res := answer_note (create_request w) in
  newNote w =
    if negb (ok res) then
      {| calls := [create_request w];
         returned := Some (tt, assign err (Some (or_str (error res) "Failed to create note")) w) |}
    else
      match data res with
      | Some created =>
          {| calls := [create_request w];
             returned := Some (tt,
               assign content (Note.content created)
                 (assign title (Note.title created)
                    (assign activeId (Some (Note.id created))
                       (assign notes (created :: value notes w) w)))) |}
      | None => {| calls := [create_request w]; returned := None |}
      end.
Proof.
  intros res. subst res. unfold create_request, request. run.
  destruct (answer_note _) as [[] [d|] e]; reflexivity.
Qed.

(** ** [Array.prototype.sort] on notes *)

Section ByUpdated.
Context `{Platform}.

Lemma sort_Forall {A} (cmp : comparator A) (P : A → Prop) (l : list A) :
  Forall P l → Forall P (sort cmp l).
Proof. intros Hl. by rewrite sort_Permutation. Qed.

Lemma sort_nil {A} (cmp : comparator A) : sort cmp [] = [].
Proof. apply Permutation_nil_r. by rewrite sort_Permutation. Qed.

Lemma sort_length {A} (cmp : comparator A) (l : list A) :
  length (sort cmp l) = length l.
Proof. by rewrite sort_Permutation. Qed.

Lemma Sorted_weaken {A} (R R' : relation A) (l : list A) :
  (∀ a b, a ∈ l → b ∈ l → R a b → R' a b) → Sorted R l → Sorted R' l.
Proof.
  intros Himpl Hsorted. induction Hsorted as [|x l Hsorted IH Hhd]; [constructor|].
  constructor.
  - apply IH. intros a b Ha Hb. apply Himpl; by right.
  - destruct Hhd as [|y l Hxy]; constructor.
    apply Himpl; [left|right; left|done].
Qed.

Lemma by_updated_desc_le (x y : Note.t) :
  valid_date x → valid_date y →
  (sort_compare by_updated_desc x y <= 0)%Z → newer_or_equal x y.
Proof.
  unfold valid_date, newer_or_equal, sort_compare, by_updated_desc.
  intros [tx ->] [ty ->]; cbn. lia.
Qed.

(** On notes with valid dates the comparator of the page is consistent. *)
Lemma by_updated_desc_consistent (l : list Note.t) :
  Forall valid_date l → consistent by_updated_desc l.
Proof.
  intros Hvalid a b c Ha Hb Hc.
  rewrite Forall_forall in Hvalid.
  destruct (Hvalid a Ha) as [ta Hta], (Hvalid b Hb) as [tb Htb], (Hvalid c Hc) as [tc Htc].
  unfold sort_compare, by_updated_desc. rewrite Hta, Htb, Htc. cbn. lia.
Qed.

(** Sorting notes whose dates are valid puts them in descending order of
    [updated_at]. *)
Lemma sort_by_updated_desc (l : list Note.t) :
  Forall valid_date l → sorted_desc (sort by_updated_desc l).
Proof.
  intros Hvalid. unfold sorted_desc.
  apply (Sorted_weaken (fun a b => (sort_compare by_updated_desc a b <= 0)%Z)).
  - intros a b Ha Hb. rewrite Forall_forall in Hvalid.
    apply by_updated_desc_le; apply Hvalid; by rewrite <- (sort_Permutation by_updated_desc l).
  - by apply sort_consistent, by_updated_desc_consistent.
Qed.

(** A note whose date is invalid is in order with no other note. *)
Lemma invalid_date_unordered (a b : Note.t) :
  ¬ valid_date a → ¬ newer_or_equal a b ∧ ¬ newer_or_equal b a.
Proof.
  unfold valid_date, newer_or_equal. intros Ha.
  destruct (getTime (Note.updated_at a)); [by destruct Ha|].
  split; cbn; [done|]. by destruct (getTime (Note.updated_at b)).
Qed.

End ByUpdated.

(** ** The [activeId] task *)

Lemma onActiveIdChange_run (w : World) :
  onActiveIdChange w =
    match List.find (fun n0 => strict_eq (Note.id n0) (value activeId w)) (value notes w) with
    | Some n => ret tt (assign content (Note.content n) (assign title (Note.title n) w))
    | None => ret tt (assign content "" (assign title "" w))
    end.
Proof. run. by destruct (List.find _ _). Qed.

Lemma dispatch_run (handler : M unit) (w : World) :
  dispatch handler w =
    match returned (handler w) with
    | Some (_, w1) =>
        if decide (value activeId w1 = value activeId w)
        then {| calls := calls (handler w); returned := Some (tt, w1) |}
        else {| calls := calls (handler w); returned := returned (onActiveIdChange w1) |}
    | None => {| calls := calls (handler w); returned := None |}
    end.
Proof.
  unfold dispatch, bind at 1 2 3, read, ret. cbn [calls returned app].
  destruct (handler w) as [rqs [[[] w1]|]]; cbn [calls returned]; [|done].
  destruct (decide _); cbn [calls returned]; [by rewrite app_nil_r|].
  rewrite onActiveIdChange_run.
  by destruct (List.find _ _); cbn [calls returned ret]; rewrite app_nil_r.
Qed.

(** The first note with a given id. *)
Lemma find_first_with_id (id : NoteID) (pre post : list Note.t) (n : Note.t) :
  Note.id n = id → (∀ m, m ∈ pre → Note.id m ≠ id) →
  List.find (fun n0 => strict_eq (Note.id n0) (Some id)) (pre ++ n :: post) = Some n.
Proof.
  intros Hn Hpre. induction pre as [|m pre IH]; cbn.
  - by rewrite (proj2 (String.eqb_eq _ _) Hn).
  - destruct (String.eqb_spec (Note.id m) id) as [Hm|_].
    + destruct (Hpre m); [left|done].
    + apply IH. intros m' Hm'. apply Hpre. by right.
Qed.

Lemma find_none_with_id (a : option NoteID) (l : list Note.t) :
  (∀ n, n ∈ l → Some (Note.id n) ≠ a) →
  List.find (fun n0 => strict_eq (Note.id n0) a) l = None.
Proof.
  intros Hl. induction l as [|m l IH]; cbn; [done|].
  destruct a as [id|]; cbn.
  - destruct (String.eqb_spec (Note.id m) id) as [Hm|_].
    + destruct (Hl m); [left|by rewrite Hm].
    + apply IH. intros n Hn. apply Hl. by right.
  - apply IH. intros n Hn. apply Hl. by right.
Qed.

(** Where ids are unique, a note of the list is the first with its id. *)
Lemma first_with_unique_id (l : list Note.t) (n : Note.t) :
  NoDup (map Note.id l) → n ∈ l →
  ∃ pre post, l = (pre ++ n :: post)%list ∧ ∀ m, m ∈ pre → Note.id m ≠ Note.id n.
Proof.
  intros Hnodup Hn. apply list_elem_of_split in Hn as (pre & post & ->).
  exists pre, post. split; [done|]. intros m Hm Heq.
  rewrite map_app in Hnodup. apply NoDup_app in Hnodup as (_ & Hdisjoint & _).
  apply (Hdisjoint (Note.id m)).
  - by apply list_elem_of_fmap_2.
  - rewrite Heq. cbn. left.
Qed.

(** C6. Whenever a handler leaves [activeId] changed, the task brings the
    editor in step with the selection and touches nothing else of the page:
    the editor fields become the title and content of the note with that id
    (the first one in the list, should several have it; the one there is,
    where ids are unique), and both become the empty string when no note of
    the list has that id, which includes [activeId] being null. *)
Theorem editor_follows_selection (handler : M unit) (w w1 : World) (rqs : list Request) :
  returns (handler w) rqs w1 →
  value activeId w1 ≠ value activeId w →
  ∃ w',
    returns (dispatch handler w) rqs w' ∧
    returned (onActiveIdChange w1) = Some (tt, w') ∧
    value notes w' = value notes w1 ∧
    value activeId w' = value activeId w1 ∧
    (∀ id pre n post,
       value activeId w1 = Some id →
       value notes w1 = (pre ++ n :: post)%list →
       Note.id n = id → (∀ m, m ∈ pre → Note.id m ≠ id) →
       value title w' = Note.title n ∧ value content w' = Note.content n) ∧
    (NoDup (map Note.id (value notes w1)) →
     ∀ n, n ∈ value notes w1 → value activeId w1 = Some (Note.id n) →
       value title w' = Note.title n ∧ value content w' = Note.content n) ∧
    ((∀ n, n ∈ value notes w1 → Some (Note.id n) ≠ value activeId w1) →
       value title w' = "" ∧ value content w' = "").
Proof.
  intros Hrun Hchg. unfold returns in *.
  rewrite dispatch_run, Hrun. cbn [returned calls].
  destruct (decide _) as [|_]; [done|].
  rewrite onActiveIdChange_run.
  assert (Hfirst : ∀ n0 id pre n post,
            List.find (fun n0 => strict_eq (Note.id n0) (value activeId w1)) (value notes w1)
              = n0 →
            value activeId w1 = Some id →
            value notes w1 = (pre ++ n :: post)%list →
            Note.id n = id → (∀ m, m ∈ pre → Note.id m ≠ id) → n0 = Some n).
  { intros n0 id pre n post Hfind Ha Hns Hn Hpre.
    by rewrite Ha, Hns, (find_first_with_id id pre post n Hn Hpre) in Hfind. }
  assert (Hunique : ∀ n0 n,
            List.find (fun n0 => strict_eq (Note.id n0) (value activeId w1)) (value notes w1)
              = n0 →
            NoDup (map Note.id (value notes w1)) → n ∈ value notes w1 →
            value activeId w1 = Some (Note.id n) → n0 = Some n).
  { intros n0 n Hfind Hnodup Hn Ha.
    destruct (first_with_unique_id _ n Hnodup Hn) as (pre & post & Hns & Hpre).
    by eapply Hfirst. }
  destruct (List.find _ _) as [n0|] eqn:Hfind; cbn [ret returned];
    (eexists; split; [reflexivity|]; split; [reflexivity|]);
    (split; [reflexivity|]; split; [reflexivity|]); (split; [|split]).
  - intros id pre n post Ha Hns Hn Hpre.
    by injection (Hfirst _ _ _ _ _ eq_refl Ha Hns Hn Hpre) as ->.
  - intros Hnodup n Hn Ha. by injection (Hunique _ _ eq_refl Hnodup Hn Ha) as ->.
  - intros Hnone. by rewrite (find_none_with_id _ _ Hnone) in Hfind.
  - intros id pre n post Ha Hns Hn Hpre.
    by pose proof (Hfirst _ _ _ _ _ eq_refl Ha Hns Hn Hpre).
  - intros Hnodup n Hn Ha. by pose proof (Hunique _ _ eq_refl Hnodup Hn Ha).
  - done.
Qed.

(** ** Creating a note *)

(** C3. After a create that the backend answers with a note, that note is
    the head of the list and the rest is the list as it was; its id is the
    active id and the editor shows its title and content.  The [activeId]
    task that may run afterwards leaves this as it is.  One request went
    out. *)
Theorem create_prepends_and_selects `{Backend} (w : World) (created : Note.t) :
  ok (answer_note (create_request w)) = true →
  data (answer_note (create_request w)) = Some created →
  ∃ w',
    returns (newNote w) [create_request w] w' ∧
    returns (dispatch newNote w) [create_request w] w' ∧
    value notes w' = created :: value notes w ∧
    value activeId w' = Some (Note.id created) ∧
    value title w' = Note.title created ∧
    value content w' = Note.content created.
Proof.
  intros Hok Hdata. unfold returns.
  rewrite dispatch_run, newNote_run, Hok, Hdata. cbn [negb calls returned].
  eexists. split; [reflexivity|]. split; [|done].
  destruct (decide _) as [|_]; [done|].
  rewrite onActiveIdChange_run. cbn. by rewrite String.eqb_refl.
Qed.

(** ** Deleting the active note *)

Lemma deleteNote_run `{Backend} (w : World) :
  deleteNote w =
    match value activeId w with
    | Some id =>
        if truthy id then
          let res := answer_void (delete_request id w) in
          let rqs := [delete_request id w] in
          if negb (ok res) then
            {| calls := rqs;
               returned := Some (tt, assign err (Some (or_str (error res) "Failed to delete note")) w) |}
          else
            let rest := List.filter (fun n => negb (String.eqb (Note.id n) id)) (value notes w) in
            match rest with
            | first :: _ =>
                {| calls := rqs;
                   returned := Some (tt,
                     assign content (Note.content first)
                       (assign title (Note.title first)
                          (assign activeId (Some (Note.id first))
                             (assign notes rest w)))) |}
            | [] =>
                {| calls := rqs;
                   returned := Some (tt,
                     assign content "" (assign title "" (assign activeId None (assign notes [] w)))) |}
            end
        else ret tt w
    | None => ret tt w
    end.
Proof.
  unfold delete_request, request. run.
  destruct (value activeId w) as [id|]; cbn; [|done].
  destruct (truthy id); cbn; [|done].
  destruct (answer_void _) as [[] d e]; cbn; [|done].
  by destruct (List.filter _ _).
Qed.

(** C2. When a note is active and the backend answers the delete with
    success, no note with the deleted id is left in the list, which otherwise
    keeps its notes and their order; the first note left becomes the active
    one and fills the editor, and when none is left the selection is null and
    both editor fields are empty.  The [activeId] task that runs afterwards
    leaves this as it is.  (The request goes out only for an id that is not
    the empty string.) *)
Theorem delete_promotes_first_remaining `{Backend} (w : World) (id : NoteID) :
  value activeId w = Some id →
  truthy id = true →
  ok (answer_void (delete_request id w)) = true →
  ∃ w',
    returns (deleteNote w) [delete_request id w] w' ∧
    returns (dispatch deleteNote w) [delete_request id w] w' ∧
    value notes w' = List.filter (fun n => negb (String.eqb (Note.id n) id)) (value notes w) ∧
    (∀ n, n ∈ value notes w' → Note.id n ≠ id) ∧
    match value notes w' with
    | first :: _ =>
        value activeId w' = Some (Note.id first) ∧
        value title w' = Note.title first ∧
        value content w' = Note.content first
    | [] =>
        value activeId w' = None ∧ value title w' = "" ∧ value content w' = ""
    end.
Proof.
  intros Ha Hid Hok. unfold returns.
  assert (Hgone : ∀ n, n ∈ List.filter (fun n => negb (String.eqb (Note.id n) id)) (value notes w) →
                       Note.id n ≠ id).
  { intros n Hn. apply list_elem_of_In, filter_In in Hn as [_ Hn].
    by destruct (String.eqb_spec (Note.id n) id). }
  rewrite dispatch_run, deleteNote_run, Ha, Hid. cbn zeta. rewrite Hok. cbn [negb].
  destruct (List.filter _ _) as [|first rest] eqn:Hrest; cbn [calls returned].
  - eexists. split; [reflexivity|]. split; [|by cbn].
    destruct (decide _) as [Heq|_]; [done|]. by rewrite onActiveIdChange_run.
  - eexists. split; [reflexivity|]. split; [|by cbn].
    destruct (decide _) as [|_]; [done|].
    rewrite onActiveIdChange_run. cbn. by rewrite String.eqb_refl.
Qed.

(** ** Loading and saving *)

Lemma loadNotes_run `{Platform, Backend} (w : World) :
  loadNotes w =
    if truthy_opt (value token w) then
      let res := answer_notes (load_request w) in
      let rqs := [load_request w] in
      let w1 := assign loading false (assign err None (assign loading true w)) in
      if negb (ok res) then
        {| calls := rqs;
           returned := Some (tt, assign err (Some (or_str (error res) "Failed to load notes")) w1) |}
      else
        let sorted := sort by_updated_desc (or_obj (data res) []) in
        let w2 := assign notes sorted w1 in
        match sorted with
        | first :: _ =>
            if truthy_opt (value activeId w) then {| calls := rqs; returned := Some (tt, w2) |}
            else
              {| calls := rqs;
                 returned := Some (tt,
                   assign content (Note.content first)
                     (assign title (Note.title first)
                        (assign activeId (Some (Note.id first)) w2))) |}
        | [] => {| calls := rqs; returned := Some (tt, w2) |}
        end
    else ret tt w.
Proof.
  unfold load_request, request. run.
  destruct (truthy_opt (value token w)); cbn; [|done].
  destruct (answer_notes _) as [[] d e]; cbn; [|done].
  destruct (truthy_opt (pg_activeId (page w))); cbn;
    by destruct (sort _ _).
Qed.

Lemma saveNote_run `{Platform, Backend} (w : World) :
  saveNote w =
    match value activeId w with
    | Some id =>
        if truthy id then
          let rq := update_request id (or_else (trim (value title w)) "Untitled")
                      (value content w) w in
          let res := answer_note rq in
          if negb (ok res) then
            {| calls := [rq];
               returned := Some (tt, assign err (Some (or_str (error res) "Failed to save note")) w) |}
          else
            match data res with
            | Some updated =>
                {| calls := [rq];
                   returned := Some (tt,
                     assign content (Note.content updated)
                       (assign title (Note.title updated)
                          (assign notes
                             (sort by_updated_desc
                                (map (fun n => if String.eqb (Note.id n) (Note.id updated)
                                               then updated else n)
                                   (value notes w))) w))) |}
            | None => {| calls := [rq]; returned := None |}
            end
        else newNote w
    | None => newNote w
    end.
Proof.
  unfold update_request, request. unfold saveNote.
  cbv beta iota zeta delta [bind ret read store api nonnull throw calls returned].
  destruct (value activeId w) as [id|]; cbn [truthy_opt negb]; [|by destruct (newNote w)].
  destruct (truthy id); cbn [negb]; [|by destruct (newNote w)].
  cbn. by destruct (answer_note _) as [[] [u|] e].
Qed.

(** C1, as the code has it.  A load and an update sort what they put in the
    list: after either, the list is in descending order of [updated_at],
    whatever order the backend used, as long as every note in the list carries
    a valid date.  A create puts the created note in front without sorting:
    the list is in order afterwards when it was before and the created note
    is not older than the note that was first. *)
Theorem sorted_after_load_update_create `{Platform, Backend} (w : World) :
  (truthy_opt (value token w) = true →
   ok (answer_notes (load_request w)) = true →
   ∃ w', returns (loadNotes w) [load_request w] w' ∧
         value notes w' ≡ₚ or_obj (data (answer_notes (load_request w))) [] ∧
         (Forall valid_date (value notes w') → sorted_desc (value notes w'))) ∧
  (∀ id updated,
     let rq := update_request id (or_else (trim (value title w)) "Untitled")
                 (value content w) w in
     value activeId w = Some id → truthy id = true →
     ok (answer_note rq) = true → data (answer_note rq) = Some updated →
     ∃ w', returns (saveNote w) [rq] w' ∧
           value notes w' ≡ₚ
             map (fun n => if String.eqb (Note.id n) (Note.id updated) then updated else n)
               (value notes w) ∧
           (Forall valid_date (value notes w') → sorted_desc (value notes w'))) ∧
  (∀ created,
     ok (answer_note (create_request w)) = true →
     data (answer_note (create_request w)) = Some created →
     sorted_desc (value notes w) →
     HdRel newer_or_equal created (value notes w) →
     ∃ w', returns (newNote w) [create_request w] w' ∧ sorted_desc (value notes w')).
Proof.
  unfold returns. split; [|split].
  - intros Htok Hok. rewrite loadNotes_run, Htok. cbn zeta. rewrite Hok. cbn [negb].
    assert (Hsorted : Forall valid_date
                        (sort by_updated_desc (or_obj (data (answer_notes (load_request w))) [])) →
                      sorted_desc
                        (sort by_updated_desc (or_obj (data (answer_notes (load_request w))) []))).
    { intros Hvalid. apply sort_by_updated_desc. by rewrite <- (sort_Permutation by_updated_desc). }
    pose proof (sort_Permutation by_updated_desc
                  (or_obj (data (answer_notes (load_request w))) [])) as Hperm.
    destruct (sort _ _) as [|first rest]; [|destruct (truthy_opt (value activeId w))];
      (eexists; split; [reflexivity|split; [exact Hperm|exact Hsorted]]).
  - intros id updated Ha Hid Hok Hdata.
    rewrite saveNote_run, Ha, Hid. cbn zeta. rewrite Hok, Hdata. cbn [negb].
    eexists. split; [reflexivity|]. cbn. split; [apply sort_Permutation|].
    intros Hvalid. apply sort_by_updated_desc.
    by rewrite <- (sort_Permutation by_updated_desc).
  - intros created Hok Hdata Hsorted Hhd.
    rewrite newNote_run, Hok, Hdata. cbn [negb].
    eexists. split; [reflexivity|]. cbn. by constructor.
Qed.

(** ** Failed calls *)

Lemma or_str_message_or (e : option string) (fallback : string) :
  or_str e fallback = message_or e fallback.
Proof. by destruct e as [[|c s]|]. Qed.

(** C4, as the code has it.  When the call of a load, a create, an update or
    a delete fails, the handler returns after that one request; the list and
    the active id are as they were, and [err] holds the error string of the
    answer, or the fallback of the handler when the answer has no error
    string or an empty one.  (A load sends its request only with a token, an
    update and a delete only with an active id that is not empty.) *)
Theorem failed_call_keeps_list_and_reports `{Platform, Backend} (w : World) :
  (truthy_opt (value token w) = true →
   ok (answer_notes (load_request w)) = false →
   ∃ w', returns (loadNotes w) [load_request w] w' ∧
         value notes w' = value notes w ∧ value activeId w' = value activeId w ∧
         value err w' =
           Some (message_or (error (answer_notes (load_request w))) "Failed to load notes")) ∧
  (ok (answer_note (create_request w)) = false →
   ∃ w', returns (newNote w) [create_request w] w' ∧
         value notes w' = value notes w ∧ value activeId w' = value activeId w ∧
         value err w' =
           Some (message_or (error (answer_note (create_request w))) "Failed to create note")) ∧
  (∀ id,
     let rq := update_request id (or_else (trim (value title w)) "Untitled")
                 (value content w) w in
     value activeId w = Some id → truthy id = true →
     ok (answer_note rq) = false →
     ∃ w', returns (saveNote w) [rq] w' ∧
           value notes w' = value notes w ∧ value activeId w' = value activeId w ∧
           value err w' = Some (message_or (error (answer_note rq)) "Failed to save note")) ∧
  (∀ id,
     value activeId w = Some id → truthy id = true →
     ok (answer_void (delete_request id w)) = false →
     ∃ w', returns (deleteNote w) [delete_request id w] w' ∧
           value notes w' = value notes w ∧ value activeId w' = value activeId w ∧
           value err w' =
             Some (message_or (error (answer_void (delete_request id w))) "Failed to delete note")).
Proof.
  unfold returns. repeat split.
  - intros Htok Hok. rewrite loadNotes_run, Htok. cbn zeta. rewrite Hok. cbn [negb].
    eexists. split; [reflexivity|]. cbn. by rewrite or_str_message_or.
  - intros Hok. rewrite newNote_run, Hok. cbn [negb].
    eexists. split; [reflexivity|]. cbn. by rewrite or_str_message_or.
  - intros id Ha Hid Hok. rewrite saveNote_run, Ha, Hid. cbn zeta. rewrite Hok. cbn [negb].
    eexists. split; [reflexivity|]. cbn. by rewrite or_str_message_or.
  - intros id Ha Hid Hok. rewrite deleteNote_run, Ha, Hid. cbn zeta. rewrite Hok. cbn [negb].
    eexists. split; [reflexivity|]. cbn. by rewrite or_str_message_or.
Qed.

(** ** The authentication overlay *)

Lemma submit_run `{Platform, Backend} (w : World) :
  let rq := auth_request (auth_path (value AuthOverlay.mode w))
              (trim (value AuthOverlay.email w)) (value AuthOverlay.password w) in
  let res := answer_auth rq in
  let w1 := assign AuthOverlay.loading false
              (assign AuthOverlay.error None (assign AuthOverlay.loading true w)) in
  submit w =
    if negb (ok res) || negb (present (data res)) then
      {| calls := [rq];
         returned := Some (tt,
           assign AuthOverlay.error (Some (or_str (error res) "Authentication failed")) w1) |}
    else
      match data res with
      | Some d =>
          {| calls := [rq];
             returned := Some (tt,
               on_localStorage
                 (fun ls => <["auth_user" := JSON_stringify (AuthData.user d)]>
                              (<["auth_token" := AuthData.token d]> ls))
                 (assign auth_user (Some (AuthData.user d))
                    (assign auth_token (Some (AuthData.token d)) w1))) |}
      | None => {| calls := [rq]; returned := None |}
      end.
Proof.
  unfold auth_request, auth_path. run. cbn.
  destruct (ov_mode (overlay w)); destruct (answer_auth _) as [[] [d|] e]; cbn; try done.
  all: unfold on_localStorage; cbn; by destruct (localStorage w).
Qed.

(** C5, as the code has it.  When the call of a login or a register fails
    (the answer is not [ok], or carries no data), [submit$] returns after
    that one request; [auth.token] and [auth.user] are as they were, so unset
    when they were unset; local storage is as it was; and the overlay shows
    the error string of the answer, or [Authentication failed] when the
    answer has no error string or an empty one. *)
Theorem failed_auth_keeps_session_and_reports `{Platform, Backend} (w : World) :
  let rq := auth_request (auth_path (value AuthOverlay.mode w))
              (trim (value AuthOverlay.email w)) (value AuthOverlay.password w) in
  ok (answer_auth rq) = false ∨ data (answer_auth rq) = None →
  ∃ w',
    returns (submit w) [rq] w' ∧
    value auth_token w' = value auth_token w ∧
    value auth_user w' = value auth_user w ∧
    localStorage w' = localStorage w ∧
    value AuthOverlay.error w' =
      Some (message_or (error (answer_auth rq)) "Authentication failed").
Proof.
  intros rq Hfail. unfold returns. rewrite submit_run. fold rq.
  assert (negb (ok (answer_auth rq)) || negb (present (data (answer_auth rq))) = true) as ->.
  { destruct Hfail as [-> | ->]; [done|]. by destruct (ok _). }
  eexists. split; [reflexivity|]. cbn. by rewrite or_str_message_or.
Qed.

(** ** Restoring the session *)

Lemma restoreSession_run `{Platform} (w : World) :
  restoreSession w =
    match localStorage w ≫= (fun ls => ls !! "auth_token"),
          (localStorage w ≫= (fun ls => ls !! "auth_user")) ≫= JSON_parse with
    | Some tok, Some usr => ret tt (assign auth_user (Some usr) (assign auth_token (Some tok) w))
    | _, _ => ret tt (assign auth_user None (assign auth_token None w))
    end.
Proof.
  run.
  destruct (localStorage w ≫= (fun ls => ls !! "auth_token")) as [tok|]; cbn;
    by destruct ((localStorage w ≫= (fun ls => ls !! "auth_user")) ≫= JSON_parse).
Qed.

(** C7.  At startup, when local storage holds both keys and the stored user
    parses, the session is the stored token with the parsed user, and no
    request goes out; when either key is absent, token and user are unset,
    again without a request. *)
Theorem session_restored_from_local_storage `{Platform} (w : World)
    (ls : gmap string string) :
  localStorage w = Some ls →
  (∀ tok u usr,
     ls !! "auth_token" = Some tok → ls !! "auth_user" = Some u →
     JSON_parse u = Some usr →
     ∃ w', returns (restoreSession w) [] w' ∧
           value auth_token w' = Some tok ∧ value auth_user w' = Some usr) ∧
  (ls !! "auth_token" = None ∨ ls !! "auth_user" = None →
     ∃ w', returns (restoreSession w) [] w' ∧
           value auth_token w' = None ∧ value auth_user w' = None).
Proof.
  intros Hls. unfold returns. rewrite restoreSession_run, Hls. cbn [mbind option_bind].
  split.
  - intros tok u usr -> -> Husr. cbn [mbind option_bind]. rewrite Husr.
    by eexists.
  - intros [-> | ->]; [by eexists|].
    destruct (ls !! "auth_token"); by eexists.
Qed.

(** What a successful [submit$] leaves in local storage is what the restore
    step reads back, on a platform whose [JSON.parse] undoes its
    [JSON.stringify]: a page opened on that storage has the session that was
    granted, and sends nothing. *)
Lemma session_survives_reload `{Platform, Backend} (w w2 : World)
    (ls : gmap string string) (d : AuthData.t) :
  let rq := auth_request (auth_path (value AuthOverlay.mode w))
              (trim (value AuthOverlay.email w)) (value AuthOverlay.password w) in
  ok (answer_auth rq) = true → data (answer_auth rq) = Some d →
  localStorage w = Some ls →
  JSON_parse (JSON_stringify (AuthData.user d)) = Some (AuthData.user d) →
  ∃ w1,
    returns (submit w) [rq] w1 ∧
    value auth_token w1 = Some (AuthData.token d) ∧
    value auth_user w1 = Some (AuthData.user d) ∧
    (localStorage w2 = localStorage w1 →
     ∃ w3, returns (restoreSession w2) [] w3 ∧
           value auth_token w3 = Some (AuthData.token d) ∧
           value auth_user w3 = Some (AuthData.user d)).
Proof.
  intros rq Hok Hdata Hls Hjson. unfold returns.
  rewrite submit_run. fold rq. rewrite Hok, Hdata. cbn [negb present orb].
  eexists. split; [reflexivity|]. split; [done|]. split; [done|].
  intros Hls2. rewrite restoreSession_run, Hls2. unfold on_localStorage. cbn.
  rewrite Hls. cbn.
  rewrite lookup_insert_ne, lookup_insert_eq by done.
  rewrite lookup_insert_eq. cbn. rewrite Hjson. by eexists.
Qed.

(** ** Save and delete without an active note *)

Lemma newNote_calls `{Backend} (w : World) : calls (newNote w) = [create_request w].
Proof.
  rewrite newNote_run. cbn zeta.
  by destruct (answer_note _) as [[] [d|] e].
Qed.

(** C8.  With no active note, a save is the create, whatever the backend
    answers: the one request is the POST of the create, not a PUT; and a
    delete returns at once, with no request and the world as it was. *)
Theorem no_active_note_save_creates_delete_skips `{Platform, Backend} (w : World) :
  value activeId w = None →
  saveNote w = newNote w ∧
  calls (saveNote w) =
    [request POST "/notes" (NoteBody (NoteInput.mk "Untitled" "")) w] ∧
  returns (deleteNote w) [] w.
Proof.
  intros Ha. rewrite saveNote_run, deleteNote_run, Ha.
  split; [done|]. split; [apply newNote_calls|done].
Qed.

(** ** What goes on the wire *)

Lemma string_length_ind (P : string → Prop) :
  (∀ s, (∀ r, (String.length r < String.length s)%nat → P r) → P s) → ∀ s, P s.
Proof.
  intros Hstep s. remember (String.length s) as n eqn:Hn.
  revert s Hn. induction n as [n IH] using lt_wf_ind. intros s ->.
  apply Hstep. intros r Hr. by apply (IH (String.length r)).
Qed.

Lemma white_space_2_not_1 (c1 c2 : ascii) :
  white_space_2 c1 c2 = true → white_space_1 c1 = false.
Proof.
  unfold white_space_2, white_space_1. cbv zeta.
  intros [H1%N.eqb_eq _]%andb_true_iff. by rewrite H1.
Qed.

Lemma white_space_3_not_1 (c1 c2 c3 : ascii) :
  white_space_3 c1 c2 c3 = true → white_space_1 c1 = false.
Proof.
  unfold white_space_3, white_space_1. cbv zeta. intros Hws.
  destruct (N.eqb_spec (N_of_ascii c1) 225) as [->|]; [done|].
  destruct (N.eqb_spec (N_of_ascii c1) 226) as [->|]; [done|].
  destruct (N.eqb_spec (N_of_ascii c1) 227) as [->|]; [done|].
  destruct (N.eqb_spec (N_of_ascii c1) 239) as [->|]; [done|].
  done.
Qed.

Lemma white_space_3_not_2 (c1 c2 c3 : ascii) :
  white_space_3 c1 c2 c3 = true → white_space_2 c1 c2 = false.
Proof.
  unfold white_space_3, white_space_2. cbv zeta. intros Hws.
  destruct (N.eqb_spec (N_of_ascii c1) 225) as [->|]; [done|].
  destruct (N.eqb_spec (N_of_ascii c1) 226) as [->|]; [done|].
  destruct (N.eqb_spec (N_of_ascii c1) 227) as [->|]; [done|].
  destruct (N.eqb_spec (N_of_ascii c1) 239) as [->|]; [done|].
  done.
Qed.

(** A white space character in front of white space is white space. *)
Lemma all_white_space_cons (e s : string) :
  white_space e = true → all_white_space (e ++ s) = all_white_space s.
Proof.
  destruct e as [|c1 [|c2 [|c3 [|c4 e]]]]; cbn [white_space]; try done; intros Hws.
  - simpl. by rewrite Hws.
  - simpl.
    by rewrite (white_space_2_not_1 _ _ Hws), Hws.
  - simpl.
    by rewrite (white_space_3_not_1 _ _ _ Hws), (white_space_3_not_2 _ _ _ Hws), Hws.
Qed.

Lemma white_space_at_head (e r s : string) :
  white_space e = true → s = e ++ r →
  match s with
  | String c1 r1 =>
      white_space_1 c1 = true ∨
      match r1 with
      | String c2 r2 =>
          white_space_2 c1 c2 = true ∨
          match r2 with
          | String c3 r3 => white_space_3 c1 c2 c3 = true
          | EmptyString => False
          end
      | EmptyString => False
      end
  | EmptyString => False
  end.
Proof.
  destruct e as [|c1 [|c2 [|c3 [|c4 e]]]]; cbn [white_space]; try done;
    intros Hws ->; simpl; auto.
Qed.

Lemma trimStart_cases (s : string) :
  trimStart s = s ∧ (∀ e r, white_space e = true → s ≠ e ++ r) ∨
  ∃ e r, white_space e = true ∧ s = e ++ r ∧ trimStart s = trimStart r.
Proof.
  destruct s as [|c1 r1].
  { left. split; [done|]. intros e r Hws Hs. by apply (white_space_at_head e r "" Hws). }
  cbn [trimStart].
  destruct (white_space_1 c1) eqn:H1.
  { right. by exists (String c1 ""), r1. }
  destruct r1 as [|c2 r2].
  { left. split; [done|]. intros e r Hws Hs.
    destruct (white_space_at_head e r _ Hws Hs); [congruence|done]. }
  destruct (white_space_2 c1 c2) eqn:H2.
  { right. by exists (String c1 (String c2 "")), r2. }
  destruct r2 as [|c3 r3].
  { left. split; [done|]. intros e r Hws Hs.
    destruct (white_space_at_head e r _ Hws Hs) as [|[|]]; [congruence|congruence|done]. }
  destruct (white_space_3 c1 c2 c3) eqn:H3.
  { right. by exists (String c1 (String c2 (String c3 ""))), r3. }
  left. split; [done|]. intros e r Hws Hs.
  destruct (white_space_at_head e r _ Hws Hs) as [|[|]]; congruence.
Qed.

Lemma white_space_length (e : string) :
  white_space e = true → (0 < String.length e)%nat.
Proof. destruct e; cbn; [done|lia]. Qed.

Lemma length_append (a b : string) :
  String.length (a ++ b) = (String.length a + String.length b)%nat.
Proof.
  induction a as [|c a IH]; [done|].
  change (S (String.length (a ++ b)) = S (String.length a + String.length b)).
  by rewrite IH.
Qed.

Lemma append_assoc (a b c : string) : (a ++ b) ++ c = a ++ b ++ c.
Proof.
  induction a as [|x a IH]; [done|].
  change (String x ((a ++ b) ++ c) = String x (a ++ b ++ c)). by rewrite IH.
Qed.

Lemma append_nil_r (a : string) : a ++ "" = a.
Proof.
  induction a as [|x a IH]; [done|].
  change (String x (a ++ "") = String x a). by rewrite IH.
Qed.

Lemma trimStart_split (s : string) :
  ∃ a, s = a ++ trimStart s ∧ all_white_space a = true.
Proof.
  induction s as [s IH] using string_length_ind.
  destruct (trimStart_cases s) as [[Hsame _]|(e & r & Hws & -> & Hstart)].
  - exists "". by rewrite Hsame.
  - destruct (IH r) as (a & Hr & Ha).
    { rewrite length_append. pose proof (white_space_length e Hws). lia. }
    exists (e ++ a). rewrite Hstart, append_assoc, <- Hr. split; [done|].
    by rewrite all_white_space_cons.
Qed.

Lemma trimStart_no_leading (s e r : string) :
  white_space e = true → trimStart s ≠ e ++ r.
Proof.
  intros Hws. induction s as [s IH] using string_length_ind.
  destruct (trimStart_cases s) as [[Hsame Hnone]|(e' & r' & Hws' & -> & Hstart)].
  - rewrite Hsame. by apply Hnone.
  - rewrite Hstart. apply IH.
    rewrite length_append. pose proof (white_space_length e' Hws'). lia.
Qed.

Lemma trimEnd_split (s : string) :
  ∃ b, s = trimEnd s ++ b ∧ all_white_space b = true.
Proof.
  induction s as [|c r (b & Hr & Hb)].
  - by exists "".
  - cbn [trimEnd]. destruct (all_white_space (String c r)) eqn:Hall.
    + by exists (String c r).
    + exists b. split; [|done].
      change (String c r = String c (trimEnd r ++ b)). by rewrite <- Hr.
Qed.

Lemma trimEnd_nil (s : string) : trimEnd s = "" → all_white_space s = true.
Proof.
  destruct s as [|c r]; [done|]. cbn [trimEnd].
  by destruct (all_white_space (String c r)).
Qed.

Lemma trimEnd_no_trailing (s e p : string) :
  white_space e = true → trimEnd s ≠ p ++ e.
Proof.
  intros Hws. revert p. induction s as [|c r IH]; intros p.
  - cbn. destruct p, e; by cbn.
  - cbn [trimEnd]. destruct (all_white_space (String c r)) eqn:Hall.
    + destruct p, e; by cbn.
    + destruct p as [|c' p].
      * change ("" ++ e) with e. intros He.
        destruct (trimEnd_split r) as (b & Hr & Hb).
        assert (String c r = e ++ b) as Hs.
        { rewrite <- He. change (String c r = String c (trimEnd r ++ b)). by rewrite <- Hr. }
        rewrite Hs, all_white_space_cons in Hall by done. congruence.
      * change (String c (trimEnd r) ≠ String c' (p ++ e)). intros [= _ Hr].
        by apply (IH p).
Qed.

(** [trim] takes white space off both ends, all of it and nothing else. *)
Lemma trim_spec (s : string) :
  (∃ a b, s = a ++ trim s ++ b ∧ all_white_space a = true ∧ all_white_space b = true) ∧
  no_outer_white_space (trim s).
Proof.
  unfold trim, no_outer_white_space. split.
  - destruct (trimStart_split s) as [a [Hs Ha]].
    destruct (trimEnd_split (trimStart s)) as [b [Ht Hb]].
    exists a, b. by rewrite <- Ht.
  - intros e r Hws. split; [|by apply trimEnd_no_trailing].
    intros Hlead. destruct (trimEnd_split (trimStart s)) as [b [Ht _]].
    rewrite Hlead, append_assoc in Ht.
    by apply (trimStart_no_leading s e (r ++ b)).
Qed.

(** C9.  The PUT of a save carries the editor title with the white space
    taken off both ends, or [Untitled] when nothing is left of it, and the
    editor content as it is; the POST of a create carries the title
    [Untitled] and the empty content. *)
Theorem requests_carry_trimmed_title_or_untitled `{Platform, Backend} (w : World) :
  (∀ id,
     value activeId w = Some id → truthy id = true →
     ∃ sent,
       calls (saveNote w) =
         [request PUT ("/notes/" ++ id) (NoteBody (NoteInput.mk sent (value content w))) w] ∧
       sent = (if String.eqb (trim (value title w)) "" then "Untitled"
               else trim (value title w)) ∧
       (∃ a b, value title w = a ++ trim (value title w) ++ b ∧
               all_white_space a = true ∧ all_white_space b = true) ∧
       no_outer_white_space (trim (value title w))) ∧
  calls (newNote w) =
    [request POST "/notes" (NoteBody (NoteInput.mk "Untitled" "")) w].
Proof.
  split; [|apply newNote_calls].
  intros id Ha Hid. eexists. split; [|split; [reflexivity|apply trim_spec]].
  rewrite saveNote_run, Ha, Hid. cbn zeta.
  unfold update_request, or_else, truthy.
  destruct (answer_note _) as [[] [d|] e]; cbn [negb calls];
    by destruct (String.eqb _ _).
Qed.

(** ** The sidebar's filter *)

Lemma prefix_spec (q s : string) :
  String.prefix q s = true ↔ ∃ b, s = q ++ b.
Proof.
  revert s. induction q as [|c q IH]; intros s.
  - split; [intros _; by exists s|by destruct s].
  - destruct s as [|c' s]; cbn; [split; [done|by intros [b ?]]|].
    destruct (ascii_dec c c') as [<-|Hne].
    + rewrite IH. split; intros [b Hb]; exists b; [by rewrite Hb|by injection Hb].
    + split; [done|]. intros [b Hb]. injection Hb as ? ?. by destruct Hne.
Qed.

Lemma includes_spec (s q : string) :
  includes s q = true ↔ ∃ a b, s = a ++ q ++ b.
Proof.
  induction s as [|c s IH]; cbn [includes]; rewrite orb_true_iff, prefix_spec.
  - split.
    + intros [[b Hb]|?]; [|done]. by exists "", b.
    + intros [a [b Hab]]. left. destruct a; [by exists b|done].
  - rewrite IH. split.
    + intros [[b Hb]|[a [b Hab]]]; [by exists "", b|].
      exists (String c a), b. cbn. by rewrite Hab.
    + intros [[|c' a] [b Hab]]; [left; by exists b|].
      right. exists a, b. by injection Hab.
Qed.

Lemma N_of_ascii_inj (c d : ascii) : N_of_ascii c = N_of_ascii d → c = d.
Proof.
  intros Heq. rewrite <- (ascii_N_embedding c), <- (ascii_N_embedding d). by rewrite Heq.
Qed.

Lemma N_of_ascii_lower (c : ascii) :
  N_of_ascii (ascii_lower c) =
    (if ((65 <=? N_of_ascii c) && (N_of_ascii c <=? 90))%N
     then N_of_ascii c + 32 else N_of_ascii c)%N.
Proof.
  unfold ascii_lower. cbv zeta.
  destruct ((65 <=? N_of_ascii c) && (N_of_ascii c <=? 90))%N eqn:Hup; [|done].
  apply andb_true_iff in Hup as [Hlo%N.leb_le Hhi%N.leb_le].
  apply N_ascii_embedding. lia.
Qed.

Lemma same_letter_lower (c d : ascii) :
  same_letter c d = true ↔ ascii_lower c = ascii_lower d.
Proof.
  split.
  - intros Hsame. apply N_of_ascii_inj. rewrite !N_of_ascii_lower.
    unfold same_letter in Hsame. cbv zeta in Hsame.
    destruct (N.leb_spec 65 (N_of_ascii c)), (N.leb_spec (N_of_ascii c) 90),
      (N.leb_spec 65 (N_of_ascii d)), (N.leb_spec (N_of_ascii d) 90);
      cbn [andb orb] in *;
      repeat match goal with
             | H : (_ || _)%bool = true |- _ => apply orb_true_iff in H as [H|H]
             | H : (_ =? _)%N = true |- _ => apply N.eqb_eq in H
             end; try done; lia.
  - intros Heq%(f_equal N_of_ascii). rewrite !N_of_ascii_lower in Heq.
    unfold same_letter. cbv zeta.
    destruct (N.leb_spec 65 (N_of_ascii c)), (N.leb_spec (N_of_ascii c) 90),
      (N.leb_spec 65 (N_of_ascii d)), (N.leb_spec (N_of_ascii d) 90);
      cbn [andb orb] in *;
      rewrite ?orb_true_iff, ?orb_false_r, ?N.eqb_eq; try lia.
Qed.

(** Two strings are the same up to case exactly when [A-Z] to [a-z] makes
    them the same. *)
Lemma eq_ignoring_case_lower (a b : string) :
  eq_ignoring_case a b = true ↔ ascii_toLowerCase a = ascii_toLowerCase b.
Proof.
  revert b. induction a as [|c a IH]; intros [|d b]; cbn; try done.
  rewrite andb_true_iff, same_letter_lower, IH. split.
  - by intros [-> ->].
  - by intros [= -> ->].
Qed.

Lemma ascii_toLowerCase_app (a b : string) :
  ascii_toLowerCase (a ++ b) = ascii_toLowerCase a ++ ascii_toLowerCase b.
Proof. induction a as [|c a IH]; simpl; [done|]. by rewrite IH. Qed.

Lemma ascii_toLowerCase_split (s x y : string) :
  ascii_toLowerCase s = x ++ y →
  ∃ a b, s = a ++ b ∧ ascii_toLowerCase a = x ∧ ascii_toLowerCase b = y.
Proof.
  revert s. induction x as [|c x IH]; intros s Hs.
  - by exists "", s.
  - destruct s as [|c' s]; [done|]. cbn in Hs. injection Hs as Hc Hs.
    destruct (IH s Hs) as [a [b [-> [Ha Hb]]]].
    exists (String c' a), b. cbn. by rewrite Hc, Ha.
Qed.

(** On Basic Latin strings the test of the filter is the search ignoring
    case. *)
Lemma includes_ascii_toLowerCase (s q : string) :
  includes (ascii_toLowerCase s) (ascii_toLowerCase q) = true ↔ ci_substring q s.
Proof.
  rewrite includes_spec. unfold ci_substring. split.
  - intros [x [y Hs]].
    destruct (ascii_toLowerCase_split _ _ _ Hs) as [a [r [-> [_ Hr]]]].
    destruct (ascii_toLowerCase_split _ _ _ Hr) as [m [b [-> [Hm _]]]].
    exists a, m, b. split; [done|]. by apply eq_ignoring_case_lower.
  - intros [a [m [b [-> Hm%eq_ignoring_case_lower]]]].
    exists (ascii_toLowerCase a), (ascii_toLowerCase b).
    by rewrite !ascii_toLowerCase_app, Hm.
Qed.

Lemma includes_toLowerCase_ascii `{Platform} (s q : string) :
  is_ascii s = true → is_ascii q = true →
  includes (toLowerCase s) (toLowerCase q) = true ↔ ci_substring q s.
Proof.
  intros Hs Hq. rewrite !toLowerCase_ascii by done.
  apply includes_ascii_toLowerCase.
Qed.

Lemma toLowerCase_empty `{Platform} : toLowerCase "" = "".
Proof. by rewrite toLowerCase_ascii. Qed.

Lemma toLowerCase_eq_empty `{Platform} (s : string) : toLowerCase s = "" ↔ s = "".
Proof. split; [apply toLowerCase_nonempty|intros ->; apply toLowerCase_empty]. Qed.

Lemma includes_empty (s : string) : includes s "" = true.
Proof. apply includes_spec. by exists "", s. Qed.

Lemma sublist_List_filter {A} (f : A → bool) (l : list A) :
  List.filter f l `sublist_of` l.
Proof.
  induction l as [|x l IH]; cbn; [constructor|].
  destruct (f x); by constructor.
Qed.

(** The sidebar's list is the notes list filtered by one test, with the empty
    query too. *)
Lemma filtered_as_filter `{Platform} (w : World) :
  filtered w =
    List.filter
      (fun n =>
         includes (toLowerCase (Note.title n)) (toLowerCase (value query w)) ||
         includes (toLowerCase (Note.content n)) (toLowerCase (value query w)))
      (value notes w).
Proof.
  unfold filtered, truthy.
  destruct (String.eqb_spec (value query w) "") as [Hq|_]; cbn [negb]; [|done].
  symmetry. apply forallb_filter_id, forallb_forall. intros n _.
  apply orb_true_iff. left. rewrite Hq, toLowerCase_empty. apply includes_empty.
Qed.

(** C10, as the code has it.  The sidebar shows the notes whose title or
    content, put in lower case, contains the query put in lower case, and no
    others: the list it renders is the notes list with the notes that fail
    this test left out, so the notes it keeps stand in the order of the notes
    list; with the empty query it is the notes list itself.  Where the query,
    the title and the content are Basic Latin, the test is the search for
    the query ignoring case. *)
Theorem sidebar_shows_matching_notes_in_order `{Platform} (w : World) :
  let matches n :=
    substring_of (toLowerCase (value query w)) (toLowerCase (Note.title n)) ∨
    substring_of (toLowerCase (value query w)) (toLowerCase (Note.content n)) in
  (∃ keep : Note.t → bool,
     (∀ n, keep n = true ↔ matches n) ∧
     filtered w = List.filter keep (value notes w)) ∧
  (∀ n, n ∈ filtered w ↔ n ∈ value notes w ∧ matches n) ∧
  filtered w `sublist_of` value notes w ∧
  (value query w = "" → filtered w = value notes w) ∧
  (∀ n,
     is_ascii (value query w) = true →
     is_ascii (Note.title n) = true → is_ascii (Note.content n) = true →
     (n ∈ filtered w ↔
      n ∈ value notes w ∧
      (ci_substring (value query w) (Note.title n) ∨
       ci_substring (value query w) (Note.content n)))).
Proof.
  intros matches.
  set (keep := fun n =>
    includes (toLowerCase (Note.title n)) (toLowerCase (value query w)) ||
    includes (toLowerCase (Note.content n)) (toLowerCase (value query w))).
  assert (Hkeep : ∀ n, keep n = true ↔ matches n).
  { intros n. unfold keep, matches, substring_of.
    by rewrite orb_true_iff, !includes_spec. }
  assert (Hfiltered : filtered w = List.filter keep (value notes w))
    by apply filtered_as_filter.
  assert (Hin : ∀ n, n ∈ filtered w ↔ n ∈ value notes w ∧ keep n = true).
  { intros n. by rewrite Hfiltered, !list_elem_of_In, filter_In. }
  split; [by exists keep|]. split; [|split; [|split]].
  - intros n. by rewrite Hin, Hkeep.
  - rewrite Hfiltered. apply sublist_List_filter.
  - intros Hq. unfold filtered, truthy. by rewrite Hq.
  - intros n Hq Ht Hc. rewrite Hin. unfold keep.
    by rewrite orb_true_iff, !includes_toLowerCase_ascii.
Qed.

(** * The properties at work

    Each property above is run here on the example data, with the example
    platform and a backend that gives one fixed answer. *)

Lemma valid_date_iso (n : Note.t) (t : Z) :
  iso_getTime (Note.updated_at n) = Some t → valid_date (H := example_platform) n.
Proof. intros Ht. by exists t. Defined.

(** ** Order of the list *)

(** A list of two notes or more, one of which carries no valid date, is in
    descending order in no arrangement: the proviso on dates in
    [sorted_after_load_update_create] cannot go. *)
Lemma undated_never_sorted `{Platform} (l : list Note.t) (n : Note.t) :
  n ∈ l → ¬ valid_date n → (2 ≤ length l)%nat → ¬ sorted_desc l.
Proof.
  intros Hn Hbad Hlen Hsorted.
  induction Hsorted as [|x l Hsorted IH Hhd]; [by inversion Hn|].
  destruct l as [|y l]; [cbn in Hlen; lia|].
  inversion Hhd as [|? ? Hxy]; subst.
  apply elem_of_cons in Hn as [<-|Hn].
  - by destruct (invalid_date_unordered n y Hbad).
  - destruct l as [|z l].
    + apply list_elem_of_singleton in Hn as <-.
      by destruct (invalid_date_unordered n x Hbad).
    + apply IH; [done|cbn; lia].
Qed.

(** A load that brings a note without a valid date leaves the list out of
    order. *)
Lemma load_of_undated_note_is_unordered :
  ∃ w',
    returns (loadNotes (H := example_platform)
               (H0 := answering_notes (success [undated; ideas]))
               (signed_in [] None "" ""))
      [load_request (signed_in [] None "" "")] w' ∧
    ¬ sorted_desc (H := example_platform) (value notes w').
Proof.
  eexists. split; [reflexivity|].
  change (¬ sorted_desc (H := example_platform) [undated; ideas]).
  apply (undated_never_sorted _ undated); [by left| |cbn; lia].
  by intros [t Ht].
Qed.

(** C1 fails for a create: the backend answers the POST with a note stamped
    before the note at the head of a list that is in order, the note goes in
    front, and the list is out of order. *)
Lemma create_can_break_the_order :
  ∃ w',
    returns (newNote (H := answering_note (success untitled_early))
               (signed_in [ideas; groceries] (Some "n2") "Ideas" "a Reading LIST"))
      [create_request (signed_in [ideas; groceries] (Some "n2") "Ideas" "a Reading LIST")] w' ∧
    sorted_desc (H := example_platform) [ideas; groceries] ∧
    value notes w' = [untitled_early; ideas; groceries] ∧
    ¬ sorted_desc (H := example_platform) (value notes w').
Proof.
  eexists. split; [reflexivity|]. split; [|split; [reflexivity|]].
  - repeat constructor.
  - intros Hs. inversion Hs as [|? ? _ Hhd]; subst.
    inversion Hhd as [|? ? Hge]; subst. vm_compute in Hge. discriminate.
Qed.

Lemma sorted_after_load_update_create_witness :
  (∃ w',
     returns (loadNotes (H := example_platform)
                (H0 := answering_notes (success [groceries; travel; ideas]))
                (signed_in [] None "" ""))
       [load_request (signed_in [] None "" "")] w' ∧
     value notes w' ≡ₚ [groceries; travel; ideas] ∧
     sorted_desc (H := example_platform) (value notes w')) ∧
  (∃ w',
     returns (saveNote (H := example_platform)
                (H0 := answering_note (success ideas_edited))
                (signed_in [travel; ideas; groceries] (Some "n2")
                   " Ideas " "a reading list, and a film"))
       [update_request "n2" "Ideas" "a reading list, and a film"
          (signed_in [travel; ideas; groceries] (Some "n2")
             " Ideas " "a reading list, and a film")] w' ∧
     value notes w' ≡ₚ [travel; ideas_edited; groceries] ∧
     sorted_desc (H := example_platform) (value notes w')) ∧
  (∃ w',
     returns (saveNote (H := example_platform)
                (H0 := answering_note (success ideas_edited))
                (signed_in [travel; stale; groceries] (Some "n2")
                   "Ideas" "a reading list, and a film"))
       [update_request "n2" "Ideas" "a reading list, and a film"
          (signed_in [travel; stale; groceries] (Some "n2")
             "Ideas" "a reading list, and a film")] w' ∧
     ¬ valid_date (H := example_platform) stale ∧
     value notes w' ≡ₚ [travel; ideas_edited; groceries] ∧
     sorted_desc (H := example_platform) (value notes w')) ∧
  (∃ w',
     returns (newNote (H := answering_note (success untitled_late))
                (signed_in [travel; ideas] (Some "n3") "Travel" "book the train"))
       [create_request (signed_in [travel; ideas] (Some "n3") "Travel" "book the train")] w' ∧
     sorted_desc (H := example_platform) (value notes w')).
Proof.
  split; [|split; [|split]].
  - destruct (sorted_after_load_update_create (H := example_platform)
                (H0 := answering_notes (success [groceries; travel; ideas]))
                (signed_in [] None "" "")) as [Hload _].
    destruct (Hload eq_refl eq_refl) as (w' & Hrun & Hperm & Hsorted).
    exists w'. split; [exact Hrun|]. split; [exact Hperm|].
    apply Hsorted. rewrite Hperm.
    repeat constructor; by eapply valid_date_iso; vm_compute.
  - destruct (sorted_after_load_update_create (H := example_platform)
                (H0 := answering_note (success ideas_edited))
                (signed_in [travel; ideas; groceries] (Some "n2")
                   " Ideas " "a reading list, and a film")) as [_ [Hupdate _]].
    destruct (Hupdate "n2" ideas_edited eq_refl eq_refl eq_refl eq_refl)
      as (w' & Hrun & Hperm & Hsorted).
    exists w'. split; [exact Hrun|]. split; [exact Hperm|].
    apply Hsorted. rewrite Hperm.
    repeat constructor; by eapply valid_date_iso; vm_compute.
  - destruct (sorted_after_load_update_create (H := example_platform)
                (H0 := answering_note (success ideas_edited))
                (signed_in [travel; stale; groceries] (Some "n2")
                   "Ideas" "a reading list, and a film")) as [_ [Hupdate _]].
    destruct (Hupdate "n2" ideas_edited eq_refl eq_refl eq_refl eq_refl)
      as (w' & Hrun & Hperm & Hsorted).
    exists w'. split; [exact Hrun|]. split; [by intros [t Ht]|]. split; [exact Hperm|].
    apply Hsorted. rewrite Hperm.
    repeat constructor; by eapply valid_date_iso; vm_compute.
  - destruct (sorted_after_load_update_create (H := example_platform)
                (H0 := answering_note (success untitled_late))
                (signed_in [travel; ideas] (Some "n3") "Travel" "book the train"))
      as [_ [_ Hcreate]].
    apply (Hcreate untitled_late); try reflexivity; repeat constructor.
Defined.

(** ** Deleting and creating *)

Lemma delete_promotes_first_remaining_witness :
  ∃ w',
    returns (deleteNote (H := answering_void {| ok := true; data := None; error := None |})
               (signed_in [travel; ideas; groceries] (Some "n3") "Travel" "book the train"))
      [delete_request "n3"
         (signed_in [travel; ideas; groceries] (Some "n3") "Travel" "book the train")] w' ∧
    value notes w' = [ideas; groceries] ∧
    value activeId w' = Some "n2" ∧
    value title w' = "Ideas" ∧
    value content w' = "a Reading LIST".
Proof.
  destruct (delete_promotes_first_remaining
              (H := answering_void {| ok := true; data := None; error := None |})
              (signed_in [travel; ideas; groceries] (Some "n3") "Travel" "book the train")
              "n3" eq_refl eq_refl eq_refl)
    as (w' & Hrun & _ & Hnotes & _ & Hfirst).
  exists w'. split; [exact Hrun|]. rewrite Hnotes in Hfirst |- *.
  split; [reflexivity|exact Hfirst].
Defined.

Lemma create_prepends_and_selects_witness :
  ∃ w',
    returns (newNote (H := answering_note (success untitled_late))
               (signed_in [ideas; groceries] (Some "n2") "Ideas" "a Reading LIST"))
      [create_request (signed_in [ideas; groceries] (Some "n2") "Ideas" "a Reading LIST")] w' ∧
    value notes w' = [untitled_late; ideas; groceries] ∧
    value activeId w' = Some "n5" ∧
    value title w' = "Untitled" ∧
    value content w' = "".
Proof.
  destruct (create_prepends_and_selects
              (H := answering_note (success untitled_late))
              (signed_in [ideas; groceries] (Some "n2") "Ideas" "a Reading LIST")
              untitled_late eq_refl eq_refl)
    as (w' & Hrun & _ & Hrest).
  exists w'. split; [exact Hrun|exact Hrest].
Defined.

(** ** Failed calls *)

(** C4 fails where the answer carries the empty string as its error: the
    handler puts its fallback in [err], not the error string. *)
Lemma empty_error_is_replaced :
  ∃ w',
    returns (loadNotes (H := example_platform)
               (H0 := answering_notes (failure (Some "")))
               (signed_in [ideas] (Some "n2") "Ideas" "a Reading LIST"))
      [load_request (signed_in [ideas] (Some "n2") "Ideas" "a Reading LIST")] w' ∧
    error (failure (T := list Note.t) (Some "")) = Some "" ∧
    value err w' = Some "Failed to load notes" ∧
    value err w' ≠ Some "".
Proof. eexists. by repeat split. Qed.

Lemma failed_call_keeps_list_and_reports_witness :
  (∃ w',
     returns (loadNotes (H := example_platform)
                (H0 := answering_notes (failure (Some "Unauthorized")))
                (signed_in [ideas] (Some "n2") "Ideas" "a Reading LIST"))
       [load_request (signed_in [ideas] (Some "n2") "Ideas" "a Reading LIST")] w' ∧
     value notes w' = [ideas] ∧ value activeId w' = Some "n2" ∧
     value err w' = Some "Unauthorized") ∧
  (∃ w',
     returns (newNote (H := answering_note (failure None))
                (signed_in [ideas] (Some "n2") "Ideas" "a Reading LIST"))
       [create_request (signed_in [ideas] (Some "n2") "Ideas" "a Reading LIST")] w' ∧
     value notes w' = [ideas] ∧ value activeId w' = Some "n2" ∧
     value err w' = Some "Failed to create note") ∧
  (∃ w',
     returns (saveNote (H := example_platform)
                (H0 := answering_note (failure (Some "Conflict")))
                (signed_in [ideas] (Some "n2") "Ideas" "a Reading LIST"))
       [update_request "n2" "Ideas" "a Reading LIST"
          (signed_in [ideas] (Some "n2") "Ideas" "a Reading LIST")] w' ∧
     value notes w' = [ideas] ∧ value activeId w' = Some "n2" ∧
     value err w' = Some "Conflict") ∧
  (∃ w',
     returns (deleteNote (H := answering_void (failure (Some "")))
                (signed_in [ideas] (Some "n2") "Ideas" "a Reading LIST"))
       [delete_request "n2" (signed_in [ideas] (Some "n2") "Ideas" "a Reading LIST")] w' ∧
     value notes w' = [ideas] ∧ value activeId w' = Some "n2" ∧
     value err w' = Some "Failed to delete note").
Proof.
  split; [|split; [|split]].
  - destruct (failed_call_keeps_list_and_reports (H := example_platform)
                (H0 := answering_notes (failure (Some "Unauthorized")))
                (signed_in [ideas] (Some "n2") "Ideas" "a Reading LIST")) as [Hload _].
    exact (Hload eq_refl eq_refl).
  - destruct (failed_call_keeps_list_and_reports (H := example_platform)
                (H0 := answering_note (failure None))
                (signed_in [ideas] (Some "n2") "Ideas" "a Reading LIST")) as [_ [Hcreate _]].
    exact (Hcreate eq_refl).
  - destruct (failed_call_keeps_list_and_reports (H := example_platform)
                (H0 := answering_note (failure (Some "Conflict")))
                (signed_in [ideas] (Some "n2") "Ideas" "a Reading LIST")) as [_ [_ [Hupdate _]]].
    exact (Hupdate "n2" eq_refl eq_refl eq_refl).
  - destruct (failed_call_keeps_list_and_reports (H := example_platform)
                (H0 := answering_void (failure (Some "")))
                (signed_in [ideas] (Some "n2") "Ideas" "a Reading LIST")) as [_ [_ [_ Hdelete]]].
    exact (Hdelete "n2" eq_refl eq_refl eq_refl).
Defined.

(** C5 fails in the same place: the overlay shows [Authentication failed]
    where the answer carries the empty string as its error. *)
Lemma empty_auth_error_is_replaced :
  ∃ w',
    returns (submit (H := example_platform)
               (H0 := answering_auth (failure (Some ""))) signing_in)
      [auth_request "/auth/login" "ann@example.org" "hunter2"] w' ∧
    error (failure (T := AuthData.t) (Some "")) = Some "" ∧
    value AuthOverlay.error w' = Some "Authentication failed" ∧
    value AuthOverlay.error w' ≠ Some "".
Proof. eexists. by repeat split. Qed.

Lemma failed_auth_keeps_session_and_reports_witness :
  ∃ w',
    returns (submit (H := example_platform)
               (H0 := answering_auth (failure (Some "Invalid credentials"))) signing_in)
      [auth_request "/auth/login" "ann@example.org" "hunter2"] w' ∧
    value auth_token w' = None ∧
    value auth_user w' = None ∧
    localStorage w' = Some ∅ ∧
    value AuthOverlay.error w' = Some "Invalid credentials".
Proof.
  exact (failed_auth_keeps_session_and_reports (H := example_platform)
           (H0 := answering_auth (failure (Some "Invalid credentials")))
           signing_in (or_introl eq_refl)).
Defined.

(** ** Selection, session, requests, filter *)

Lemma editor_follows_selection_witness :
  ∃ w',
    returns (dispatch (selectNote "n1")
               (signed_in [ideas; groceries] (Some "n2") "Ideas" "a Reading LIST")) [] w' ∧
    value activeId w' = Some "n1" ∧
    value title w' = "Groceries" ∧
    value content w' = "milk, eggs".
Proof.
  destruct (editor_follows_selection (selectNote "n1")
              (signed_in [ideas; groceries] (Some "n2") "Ideas" "a Reading LIST")
              (assign activeId (Some "n1")
                 (signed_in [ideas; groceries] (Some "n2") "Ideas" "a Reading LIST"))
              [] eq_refl)
    as (w' & Hrun & _ & _ & Hactive & Hfound & _ & _); [discriminate|].
  exists w'. split; [exact Hrun|]. split; [exact Hactive|].
  apply (Hfound "n1" [ideas] groceries []); [reflexivity|reflexivity|reflexivity|].
  intros m Hm. apply list_elem_of_singleton in Hm as ->. discriminate.
Defined.

Lemma session_restored_from_local_storage_witness :
  (∃ w',
     returns (restoreSession (H := example_platform)
                (reopened (<["auth_user" := frame_user ann]> (<["auth_token" := "secret"]> ∅))))
       [] w' ∧
     value auth_token w' = Some "secret" ∧ value auth_user w' = Some ann) ∧
  (∃ w',
     returns (restoreSession (H := example_platform)
                (reopened (<["auth_token" := "secret"]> ∅))) [] w' ∧
     value auth_token w' = None ∧ value auth_user w' = None).
Proof.
  split.
  - destruct (session_restored_from_local_storage (H := example_platform)
                (reopened (<["auth_user" := frame_user ann]> (<["auth_token" := "secret"]> ∅)))
                _ eq_refl) as [Hboth _].
    apply (Hboth "secret" (frame_user ann) ann); by vm_compute.
  - destruct (session_restored_from_local_storage (H := example_platform)
                (reopened (<["auth_token" := "secret"]> ∅)) _ eq_refl) as [_ Habsent].
    apply Habsent. right. by vm_compute.
Defined.

Lemma no_active_note_save_creates_delete_skips_witness :
  saveNote (H := example_platform) (H0 := answering_note (success untitled_late))
    (signed_in [ideas] None "" "") =
  newNote (H := answering_note (success untitled_late)) (signed_in [ideas] None "" "") ∧
  calls (saveNote (H := example_platform) (H0 := answering_note (success untitled_late))
           (signed_in [ideas] None "" "")) =
    [request POST "/notes" (NoteBody (NoteInput.mk "Untitled" "")) (signed_in [ideas] None "" "")] ∧
  returns (deleteNote (H := answering_note (success untitled_late))
             (signed_in [ideas] None "" "")) [] (signed_in [ideas] None "" "").
Proof.
  exact (no_active_note_save_creates_delete_skips (H := example_platform)
           (H0 := answering_note (success untitled_late))
           (signed_in [ideas] None "" "") eq_refl).
Defined.

Lemma requests_carry_trimmed_title_or_untitled_witness :
  calls (saveNote (H := example_platform) (H0 := answering_note (success ideas_edited))
           (signed_in [ideas] (Some "n2") "  Ideas  " "a reading list, and a film")) =
    [request PUT "/notes/n2" (NoteBody (NoteInput.mk "Ideas" "a reading list, and a film"))
       (signed_in [ideas] (Some "n2") "  Ideas  " "a reading list, and a film")] ∧
  calls (saveNote (H := example_platform) (H0 := answering_note (success ideas_edited))
           (signed_in [ideas] (Some "n2") "   " "a reading list, and a film")) =
    [request PUT "/notes/n2" (NoteBody (NoteInput.mk "Untitled" "a reading list, and a film"))
       (signed_in [ideas] (Some "n2") "   " "a reading list, and a film")].
Proof.
  split.
  - destruct (requests_carry_trimmed_title_or_untitled (H := example_platform)
                (H0 := answering_note (success ideas_edited))
                (signed_in [ideas] (Some "n2") "  Ideas  " "a reading list, and a film"))
      as [Hsave _].
    destruct (Hsave "n2" eq_refl eq_refl) as (sent & Hcalls & Hsent & _).
    rewrite Hsent in Hcalls. exact Hcalls.
  - destruct (requests_carry_trimmed_title_or_untitled (H := example_platform)
                (H0 := answering_note (success ideas_edited))
                (signed_in [ideas] (Some "n2") "   " "a reading list, and a film"))
      as [Hsave _].
    destruct (Hsave "n2" eq_refl eq_refl) as (sent & Hcalls & Hsent & _).
    rewrite Hsent in Hcalls. exact Hcalls.
Defined.

(** The white space that [trim] takes off is that of ECMAScript, beyond
    Basic Latin too: here a no-break space (U+00A0) stands before the title
    and an ideographic space (U+3000) after it. *)
Lemma trim_takes_unicode_white_space :
  trim " Ideas　" = "Ideas" ∧
  white_space " " = true ∧ white_space "　" = true.
Proof. by vm_compute. Qed.

(** C10 fails on a capital sigma that ends a word: there its lower-case form
    is the final sigma, which the lower-case form of the query, a sigma by
    itself, is not.  The title contains the query as it stands, and the
    sidebar leaves the note out. *)
Lemma final_sigma_hides_a_match :
  odos ∈ value notes (searching "Σ" [ideas; odos]) ∧
  ci_substring (value query (searching "Σ" [ideas; odos])) (Note.title odos) ∧
  @toLowerCase example_platform (Note.title odos) = "οδος" ∧
  @toLowerCase example_platform (value query (searching "Σ" [ideas; odos])) = "σ" ∧
  filtered (H := example_platform) (searching "Σ" [ideas; odos]) = [].
Proof.
  split; [by right; left|]. split; [by exists "ΟΔΟ", "Σ", ""|]. by vm_compute.
Qed.

Lemma sidebar_shows_matching_notes_in_order_witness :
  filtered (H := example_platform) (searching "" [travel; ideas; groceries]) =
    [travel; ideas; groceries] ∧
  filtered (H := example_platform) (searching "reading list" [travel; ideas; groceries])
    `sublist_of` [travel; ideas; groceries] ∧
  ideas ∈ filtered (H := example_platform)
            (searching "reading list" [travel; ideas; groceries]) ∧
  filtered (H := example_platform) (searching "reading list" [travel; ideas; groceries]) =
    [ideas].
Proof.
  split; [|split; [|split]].
  - destruct (sidebar_shows_matching_notes_in_order (H := example_platform)
                (searching "" [travel; ideas; groceries])) as (_ & _ & _ & Hempty & _).
    exact (Hempty eq_refl).
  - destruct (sidebar_shows_matching_notes_in_order (H := example_platform)
                (searching "reading list" [travel; ideas; groceries]))
      as (_ & _ & Hsub & _).
    exact Hsub.
  - destruct (sidebar_shows_matching_notes_in_order (H := example_platform)
                (searching "reading list" [travel; ideas; groceries]))
      as (_ & _ & _ & _ & Hascii).
    apply (Hascii ideas eq_refl eq_refl eq_refl). split; [by right; left|].
    right. by exists "a ", "Reading LIST", "".
  - reflexivity.
Defined.

(** * Further properties of the code *)

(** ** Helpers *)

Lemma newer_or_equal_trans `{Platform} (a b c : Note.t) :
  newer_or_equal a b → newer_or_equal b c → newer_or_equal a c.
Proof.
  unfold newer_or_equal.
  destruct (getTime (Note.updated_at a)), (getTime (Note.updated_at b)),
    (getTime (Note.updated_at c)); cbn; try done.
  rewrite !Z.leb_le. lia.
Qed.

Lemma newer_or_equal_refl `{Platform} (a : Note.t) :
  valid_date a → newer_or_equal a a.
Proof.
  unfold newer_or_equal. intros [t ->]. cbn. apply Z.leb_refl.
Qed.

(** The head of a list in descending order is not older than any note of
    the list. *)
Lemma sorted_desc_head `{Platform} (first : Note.t) (rest : list Note.t) :
  valid_date first → sorted_desc (first :: rest) →
  ∀ n, n ∈ first :: rest → newer_or_equal first n.
Proof.
  intros Hvalid Hsorted n Hn.
  apply Sorted_StronglySorted in Hsorted;
    [|intros a b c; apply newer_or_equal_trans].
  apply StronglySorted_inv in Hsorted as [_ Hall].
  apply elem_of_cons in Hn as [->|Hn]; [by apply newer_or_equal_refl|].
  by eapply Forall_forall in Hall.
Qed.

Lemma truthy_or_str (e : option string) (fallback : string) :
  truthy fallback = true → truthy (or_str e fallback) = true.
Proof.
  intros Hfb. destruct e as [s|]; [|done].
  unfold or_str, or_else. by destruct (truthy s) eqn:Hs.
Qed.

(** ** Loading *)

(** X1. A load that succeeds ends with [loading] off, [err] cleared and the
    list holding the notes of the answer as the engine's sort leaves them
    under the comparator of the page.  With a note selected
    already, or with nothing to show, the selection and the editor stay as
    they are, also when the selected note is not in the new list.  With no
    note selected, the head of the new list is selected and fills the
    editor; where the dates are valid it is a note updated last. *)
Theorem load_selects_the_latest_when_nothing_is_selected `{Platform, Backend} (w : World) :
  truthy_opt (value token w) = true →
  ok (answer_notes (load_request w)) = true →
  ∃ w',
    returns (loadNotes w) [load_request w] w' ∧
    value loading w' = false ∧ value err w' = None ∧
    value notes w' =
      sort by_updated_desc (or_obj (data (answer_notes (load_request w))) []) ∧
    (truthy_opt (value activeId w) = true ∨ value notes w' = [] →
       value activeId w' = value activeId w ∧
       value title w' = value title w ∧ value content w' = value content w) ∧
    (truthy_opt (value activeId w) = false →
     ∀ first rest, value notes w' = first :: rest →
       value activeId w' = Some (Note.id first) ∧
       value title w' = Note.title first ∧ value content w' = Note.content first ∧
       (Forall valid_date (or_obj (data (answer_notes (load_request w))) []) →
        ∀ n, n ∈ value notes w' → newer_or_equal first n)).
Proof.
  intros Htok Hok. unfold returns.
  rewrite loadNotes_run, Htok. cbn zeta. rewrite Hok. cbn [negb].
  set (loaded := or_obj _ _).
  pose proof (sort_by_updated_desc loaded) as Hsorted.
  pose proof (sort_Forall by_updated_desc valid_date loaded) as Hvalid.
  destruct (sort by_updated_desc loaded) as [|first rest] eqn:Hsort.
  - eexists. split; [reflexivity|]. cbn. repeat split; try done.
  - destruct (truthy_opt (value activeId w)) eqn:Hactive;
      (eexists; split; [reflexivity|]); cbn;
      (split; [done|]; split; [done|]; split; [done|]); split; try done.
    + by intros [|].
    + intros _ first' rest' [= <- <-]. repeat split; try done.
      intros Hdates n Hn. apply (sorted_desc_head first rest); [|by apply Hsorted|done].
      by eapply Forall_inv, Hvalid.
Qed.

(** The requests and the result of two handlers run one after the other. *)
Lemma calls_bind {A B} (c : M A) (k : A → M B) (w : World) :
  calls (bind c k w) =
    (calls (c w) ++
     match returned (c w) with
     | Some (a, w') => calls (k a w')
     | None => []
     end)%list.
Proof.
  unfold bind. destruct (returned (c w)) as [[a w']|]; cbn [calls]; [done|].
  by rewrite app_nil_r.
Qed.

Lemma returned_bind {A B} (c : M A) (k : A → M B) (w : World) :
  returned (bind c k w) =
    match returned (c w) with
    | Some (a, w') => returned (k a w')
    | None => None
    end.
Proof. unfold bind. by destruct (returned (c w)) as [[a w']|]. Qed.

Lemma loadNotes_calls `{Platform, Backend} (w : World) :
  calls (loadNotes w) = if truthy_opt (value token w) then [load_request w] else [].
Proof.
  rewrite loadNotes_run. destruct (truthy_opt (value token w)); [|done].
  cbn zeta. destruct (answer_notes _) as [[] d e]; cbn [negb]; [|done].
  destruct (sort _ _); [done|]. by destruct (truthy_opt (value activeId w)).
Qed.

(** X2. Nothing is loaded without a token.  A load with no token, or with the
    empty string for one, sends nothing and changes nothing.  The task that
    runs when the page is visible loads only when [auth.token] and the token
    signal derived from it are both set; run after the task that derives the
    token, it sends the GET exactly when [auth.token] is set, with that token
    as bearer. *)
Theorem nothing_is_loaded_without_a_token `{Platform, Backend} (w : World) :
  (truthy_opt (value token w) = false → returns (loadNotes w) [] w) ∧
  calls (onVisible w) =
    (if truthy_opt (value auth_token w) && truthy_opt (value token w)
     then [load_request w] else []) ∧
  calls ((syncToken ;; onVisible) w) =
    (if truthy_opt (value auth_token w)
     then [{| method := GET; path := "/notes"; body := NoBody;
              bearer := value auth_token w |}]
     else []).
Proof.
  assert (Hvisible : ∀ w0, calls (onVisible w0) =
            if truthy_opt (value auth_token w0) && truthy_opt (value token w0)
            then [load_request w0] else []).
  { intros w0. unfold onVisible. cbv beta iota zeta delta [bind read ret calls returned].
    destruct (truthy_opt (value auth_token w0)); cbn [andb app]; [|done].
    apply loadNotes_calls. }
  split; [|split].
  - intros Htok. unfold returns. by rewrite loadNotes_run, Htok.
  - apply Hvisible.
  - rewrite calls_bind.
    change (returned (syncToken w)) with (Some (tt, assign token (value auth_token w) w)).
    change (calls (syncToken w)) with (@nil Request).
    cbv beta iota. rewrite Hvisible. cbn. by destruct (truthy_opt (au_token (auth w))).
Qed.

(** ** Requests *)

Lemma saveNote_calls `{Platform, Backend} (w : World) :
  calls (saveNote w) =
    match value activeId w with
    | Some id =>
        if truthy id
        then [update_request id (or_else (trim (value title w)) "Untitled")
                (value content w) w]
        else [create_request w]
    | None => [create_request w]
    end.
Proof.
  rewrite saveNote_run.
  destruct (value activeId w) as [id|]; [|apply newNote_calls].
  destruct (truthy id); [|apply newNote_calls].
  cbn zeta. by destruct (answer_note _) as [[] [u|] e].
Qed.

Lemma deleteNote_calls `{Backend} (w : World) :
  calls (deleteNote w) =
    match value activeId w with
    | Some id => if truthy id then [delete_request id w] else []
    | None => []
    end.
Proof.
  rewrite deleteNote_run.
  destruct (value activeId w) as [id|]; [|done].
  destruct (truthy id); [|done].
  cbn zeta. destruct (answer_void _) as [[] d e]; cbn [negb]; [|done].
  by destruct (List.filter _ _).
Qed.

Lemma submit_calls `{Platform, Backend} (w : World) :
  calls (submit w) =
    [auth_request (auth_path (value AuthOverlay.mode w))
       (trim (value AuthOverlay.email w)) (value AuthOverlay.password w)].
Proof.
  rewrite submit_run. cbn zeta.
  by destruct (answer_auth _) as [[] [d|] e].
Qed.

(** X3. No handler sends a second request, whatever the backend answers and
    whether or not the handler returns: a load and a delete send one request
    or none, a create, a save and a submit send exactly one, also when there
    is no token.  The requests of the page carry the value of the token
    signal; the submit is a POST without a token. *)
Theorem handlers_send_one_request_at_most `{Platform, Backend} (w : World) :
  (length (calls (loadNotes w)) ≤ 1 ∧ length (calls (deleteNote w)) ≤ 1 ∧
   length (calls (newNote w)) = 1 ∧ length (calls (saveNote w)) = 1 ∧
   length (calls (submit w)) = 1)%nat ∧
  (∀ rq, rq ∈ (calls (loadNotes w) ++ calls (newNote w) ++
               calls (saveNote w) ++ calls (deleteNote w))%list →
         bearer rq = value token w) ∧
  (∀ rq, rq ∈ calls (submit w) → method rq = POST ∧ bearer rq = None).
Proof.
  rewrite loadNotes_calls, deleteNote_calls, newNote_calls, saveNote_calls, submit_calls.
  split; [|split].
  - destruct (truthy_opt (value token w)), (value activeId w) as [id|];
      try destruct (truthy id); cbn; lia.
  - intros rq Hrq. rewrite !elem_of_app in Hrq.
    destruct (truthy_opt (value token w)), (value activeId w) as [id|];
      try destruct (truthy id);
      repeat match goal with
             | H : _ ∨ _ |- _ => destruct H
             | H : _ ∈ [] |- _ => by inversion H
             | H : _ ∈ [_] |- _ => apply list_elem_of_singleton in H as ->
             end; done.
  - intros rq Hrq. by apply list_elem_of_singleton in Hrq as ->.
Qed.

(** ** Answers that are [ok] and empty *)

(** X4. An answer that is [ok] and carries no data: a load takes it for the
    empty list, and keeps the selection and the editor as they are, so a
    note that was selected stays selected with the list empty; a create and
    an update die on it with a [TypeError], their one request sent. *)
Theorem ok_answer_without_data `{Platform, Backend} (w : World) :
  (truthy_opt (value token w) = true →
   ok (answer_notes (load_request w)) = true →
   data (answer_notes (load_request w)) = None →
   ∃ w', returns (loadNotes w) [load_request w] w' ∧
         value notes w' = [] ∧ value activeId w' = value activeId w ∧
         value title w' = value title w ∧ value content w' = value content w) ∧
  (ok (answer_note (create_request w)) = true →
   data (answer_note (create_request w)) = None →
   newNote w = {| calls := [create_request w]; returned := None |}) ∧
  (∀ id,
     let rq := update_request id (or_else (trim (value title w)) "Untitled")
                 (value content w) w in
     value activeId w = Some id → truthy id = true →
     ok (answer_note rq) = true → data (answer_note rq) = None →
     saveNote w = {| calls := [rq]; returned := None |}).
Proof.
  split; [|split].
  - intros Htok Hok Hdata. unfold returns.
    rewrite loadNotes_run, Htok. cbn zeta. rewrite Hok, Hdata.
    cbn [or_obj negb]. rewrite sort_nil. by eexists.
  - intros Hok Hdata. by rewrite newNote_run, Hok, Hdata.
  - intros id rq Ha Hid Hok Hdata. subst rq. rewrite saveNote_run, Ha, Hid. cbn zeta.
    by rewrite Hok, Hdata.
Qed.

(** ** What a failure and a success leave behind *)

(** X5. A failed call changes nothing of the world but [err] (and, for a
    load, [loading], which ends off): a save that fails leaves the draft in
    the editor as typed, and a delete that fails leaves the note, the
    selection and the editor. *)
Theorem failed_call_changes_only_err `{Platform, Backend} (w : World) :
  (truthy_opt (value token w) = true →
   ok (answer_notes (load_request w)) = false →
   ∃ msg, returns (loadNotes w) [load_request w]
            (assign err (Some msg) (assign loading false w))) ∧
  (ok (answer_note (create_request w)) = false →
   ∃ msg, returns (newNote w) [create_request w] (assign err (Some msg) w)) ∧
  (∀ id,
     let rq := update_request id (or_else (trim (value title w)) "Untitled")
                 (value content w) w in
     value activeId w = Some id → truthy id = true →
     ok (answer_note rq) = false →
     ∃ msg, returns (saveNote w) [rq] (assign err (Some msg) w)) ∧
  (∀ id,
     value activeId w = Some id → truthy id = true →
     ok (answer_void (delete_request id w)) = false →
     ∃ msg, returns (deleteNote w) [delete_request id w] (assign err (Some msg) w)).
Proof.
  unfold returns. repeat split.
  - intros Htok Hok. rewrite loadNotes_run, Htok. cbn zeta. rewrite Hok. by eexists.
  - intros Hok. rewrite newNote_run, Hok. by eexists.
  - intros id Ha Hid Hok. rewrite saveNote_run, Ha, Hid. cbn zeta. rewrite Hok. by eexists.
  - intros id Ha Hid Hok. rewrite deleteNote_run, Ha, Hid. cbn zeta. rewrite Hok. by eexists.
Qed.

(** X6. A message is on screen after every failed call: what the handler
    leaves in [err], or in the error signal of the overlay, is never the
    empty string, so the line that shows it is rendered. *)
Theorem failed_call_shows_a_message `{Platform, Backend} (w : World) :
  (truthy_opt (value token w) = true →
   ok (answer_notes (load_request w)) = false →
   ∃ w', returns (loadNotes w) [load_request w] w' ∧ shows_error w' = true) ∧
  (ok (answer_note (create_request w)) = false →
   ∃ w', returns (newNote w) [create_request w] w' ∧ shows_error w' = true) ∧
  (∀ id,
     let rq := update_request id (or_else (trim (value title w)) "Untitled")
                 (value content w) w in
     value activeId w = Some id → truthy id = true →
     ok (answer_note rq) = false →
     ∃ w', returns (saveNote w) [rq] w' ∧ shows_error w' = true) ∧
  (∀ id,
     value activeId w = Some id → truthy id = true →
     ok (answer_void (delete_request id w)) = false →
     ∃ w', returns (deleteNote w) [delete_request id w] w' ∧ shows_error w' = true) ∧
  (let rq := auth_request (auth_path (value AuthOverlay.mode w))
               (trim (value AuthOverlay.email w)) (value AuthOverlay.password w) in
   ok (answer_auth rq) = false ∨ data (answer_auth rq) = None →
   ∃ w', returns (submit w) [rq] w' ∧ overlay_shows_error w' = true).
Proof.
  unfold returns, shows_error, overlay_shows_error. repeat split.
  - intros Htok Hok. rewrite loadNotes_run, Htok. cbn zeta. rewrite Hok.
    eexists. split; [reflexivity|]. by apply truthy_or_str.
  - intros Hok. rewrite newNote_run, Hok.
    eexists. split; [reflexivity|]. by apply truthy_or_str.
  - intros id Ha Hid Hok. rewrite saveNote_run, Ha, Hid. cbn zeta. rewrite Hok.
    eexists. split; [reflexivity|]. by apply truthy_or_str.
  - intros id Ha Hid Hok. rewrite deleteNote_run, Ha, Hid. cbn zeta. rewrite Hok.
    eexists. split; [reflexivity|]. by apply truthy_or_str.
  - intros Hfail. rewrite submit_run.
    set (rq := auth_request _ _ _) in *.
    assert (negb (ok (answer_auth rq)) || negb (present (data (answer_auth rq))) = true) as ->.
    { destruct Hfail as [-> | ->]; [done|]. by destruct (ok _). }
    eexists. split; [reflexivity|]. by apply truthy_or_str.
Qed.

(** X7. A create, an update or a delete that succeeds leaves [err] as it
    was: the message of an earlier failure stays on screen after them.  Only
    a load clears it. *)
Theorem success_keeps_the_old_message `{Platform, Backend} (w : World) :
  (∀ created,
     ok (answer_note (create_request w)) = true →
     data (answer_note (create_request w)) = Some created →
     ∃ w', returns (newNote w) [create_request w] w' ∧ value err w' = value err w) ∧
  (∀ id updated,
     let rq := update_request id (or_else (trim (value title w)) "Untitled")
                 (value content w) w in
     value activeId w = Some id → truthy id = true →
     ok (answer_note rq) = true → data (answer_note rq) = Some updated →
     ∃ w', returns (saveNote w) [rq] w' ∧ value err w' = value err w) ∧
  (∀ id,
     value activeId w = Some id → truthy id = true →
     ok (answer_void (delete_request id w)) = true →
     ∃ w', returns (deleteNote w) [delete_request id w] w' ∧ value err w' = value err w).
Proof.
  unfold returns. repeat split.
  - intros created Hok Hdata. rewrite newNote_run, Hok, Hdata. by eexists.
  - intros id updated Ha Hid Hok Hdata. rewrite saveNote_run, Ha, Hid. cbn zeta.
    rewrite Hok, Hdata. by eexists.
  - intros id Ha Hid Hok. rewrite deleteNote_run, Ha, Hid. cbn zeta. rewrite Hok.
    cbn [negb]. destruct (List.filter _ _); by eexists.
Qed.

(** X8. The handlers of the page never touch the session: whatever they are
    answered, [auth.token], [auth.user], local storage and the signals of the
    overlay are as they were when they return, and so are the token signal
    and the query.  The submit of the overlay never touches a signal of the
    page. *)
Theorem handlers_keep_to_their_own_state `{Platform, Backend}
    (w w' : World) (rqs : list Request) :
  (returns (loadNotes w) rqs w' ∨ returns (newNote w) rqs w' ∨
   returns (saveNote w) rqs w' ∨ returns (deleteNote w) rqs w' →
   auth w' = auth w ∧ localStorage w' = localStorage w ∧ overlay w' = overlay w ∧
   value token w' = value token w ∧ value query w' = value query w) ∧
  (returns (submit w) rqs w' → page w' = page w).
Proof.
  unfold returns.
  assert (Hnew : newNote w = {| calls := rqs; returned := Some (tt, w') |} →
            auth w' = auth w ∧ localStorage w' = localStorage w ∧ overlay w' = overlay w ∧
            value token w' = value token w ∧ value query w' = value query w).
  { rewrite newNote_run. cbn zeta.
    destruct (answer_note (create_request w)) as [[] [d|] e]; cbn [negb ok data];
      intros [= _ <-] || discriminate 1; done. }
  split; [intros [Hrun|[Hrun|[Hrun|Hrun]]]|intros Hrun].
  - rewrite loadNotes_run in Hrun.
    destruct (truthy_opt (value token w)); [|by injection Hrun as _ <-].
    cbn zeta in Hrun.
    destruct (answer_notes (load_request w)) as [[] d e]; cbn [negb ok data] in Hrun;
      [|by injection Hrun as _ <-].
    destruct (sort _ _); [by injection Hrun as _ <-|].
    destruct (truthy_opt (value activeId w)); by injection Hrun as _ <-.
  - by apply Hnew.
  - rewrite saveNote_run in Hrun.
    destruct (value activeId w) as [id|]; [|by apply Hnew].
    destruct (truthy id); [|by apply Hnew]. cbn zeta in Hrun.
    destruct (answer_note _) as [[] [d|] e]; cbn [negb ok data] in Hrun;
      injection Hrun as _ <- || discriminate Hrun; done.
  - rewrite deleteNote_run in Hrun.
    destruct (value activeId w) as [id|]; [|by injection Hrun as _ <-].
    destruct (truthy id); [|by injection Hrun as _ <-]. cbn zeta in Hrun.
    destruct (answer_void _) as [[] d e]; cbn [negb ok data] in Hrun;
      [|by injection Hrun as _ <-].
    destruct (List.filter _ _); by injection Hrun as _ <-.
  - rewrite submit_run in Hrun. cbn zeta in Hrun.
    destruct (answer_auth _) as [[] [d|] e]; cbn [negb ok data present orb] in Hrun;
      injection Hrun as _ <- || discriminate Hrun; done.
Qed.

(** ** Updating *)

Lemma elem_of_sort `{Platform} {A} (cmp : comparator A) (l : list A) (x : A) :
  x ∈ sort cmp l ↔ x ∈ l.
Proof. by rewrite sort_Permutation. Qed.

(** X9. An update that succeeds puts the note of the answer in the place of
    every note of the list that has its id and keeps the other notes, so the
    list keeps its length; when no note of the list has that id, the note of
    the answer is not added.  The editor shows the title and content of the
    answer, not the draft; the selection and the list's notes are otherwise
    untouched, and the [activeId] task does not run. *)
Theorem update_replaces_the_note_in_place `{Platform, Backend}
    (w : World) (id : NoteID) (updated : Note.t) :
  let rq := update_request id (or_else (trim (value title w)) "Untitled")
              (value content w) w in
  value activeId w = Some id → truthy id = true →
  ok (answer_note rq) = true → data (answer_note rq) = Some updated →
  ∃ w',
    returns (saveNote w) [rq] w' ∧
    returns (dispatch saveNote w) [rq] w' ∧
    value activeId w' = Some id ∧
    value title w' = Note.title updated ∧
    value content w' = Note.content updated ∧
    length (value notes w') = length (value notes w) ∧
    (∀ n, n ∈ value notes w' ↔
          (n ∈ value notes w ∧ Note.id n ≠ Note.id updated) ∨
          (n = updated ∧ ∃ m, m ∈ value notes w ∧ Note.id m = Note.id updated)).
Proof.
  intros rq Ha Hid Hok Hdata. unfold returns.
  rewrite dispatch_run, saveNote_run, Ha, Hid. cbn zeta. fold rq.
  rewrite Hok, Hdata. cbn [negb calls returned].
  eexists. split; [reflexivity|]. split; [by destruct (decide _)|].
  cbn. split; [done|]. split; [done|]. split; [done|]. split.
  - by rewrite sort_length, length_map.
  - intros n. rewrite elem_of_sort, list_elem_of_fmap. split.
    + intros (m & -> & Hm). destruct (String.eqb_spec (Note.id m) (Note.id updated)).
      * right. eauto.
      * by left.
    + intros [[Hn Hne]|[-> (m & Hm & Heq)]].
      * exists n. split; [|done]. by destruct (String.eqb_spec (Note.id n) (Note.id updated)).
      * exists m. split; [|done]. by rewrite (proj2 (String.eqb_eq _ _) Heq).
Qed.

Lemma strictly_older_not_newer `{Platform} (a b : Note.t) :
  strictly_older a b → ¬ newer_or_equal a b.
Proof.
  unfold newer_or_equal. intros (ta & tb & -> & -> & Hlt). cbn.
  rewrite Z.leb_le. lia.
Qed.

(** X10. The note just saved goes to the top: when the backend stamps the
    updated note later than every other note of the list, it is the first
    note of the list after the update. *)
Theorem saved_note_rises_to_the_top `{Platform, Backend}
    (w : World) (id : NoteID) (updated : Note.t) :
  let rq := update_request id (or_else (trim (value title w)) "Untitled")
              (value content w) w in
  value activeId w = Some id → truthy id = true →
  ok (answer_note rq) = true → data (answer_note rq) = Some updated →
  valid_date updated →
  (∃ m, m ∈ value notes w ∧ Note.id m = Note.id updated) →
  (∀ n, n ∈ value notes w → Note.id n ≠ Note.id updated → strictly_older n updated) →
  ∃ w', returns (saveNote w) [rq] w' ∧ head (value notes w') = Some updated.
Proof.
  intros rq Ha Hid Hok Hdata Hvalid (m & Hm & Heq) Holder. unfold returns.
  rewrite saveNote_run, Ha, Hid. cbn zeta. fold rq. rewrite Hok, Hdata. cbn [negb].
  eexists. split; [reflexivity|]. cbn.
  set (replaced := map _ (pg_notes (page w))).
  assert (Hin : ∀ n, n ∈ replaced → n = updated ∨ strictly_older n updated).
  { intros n (n0 & -> & Hn0)%list_elem_of_fmap.
    destruct (String.eqb_spec (Note.id n0) (Note.id updated)); [by left|].
    right. by apply Holder. }
  assert (Hdates : Forall valid_date replaced).
  { apply Forall_forall. intros n [->|(tn & _ & Hn & _)]%Hin; [done|by exists tn]. }
  assert (Hupdated : updated ∈ sort by_updated_desc replaced).
  { apply elem_of_sort, list_elem_of_fmap. exists m. split; [|done].
    by rewrite (proj2 (String.eqb_eq _ _) Heq). }
  pose proof (sort_by_updated_desc replaced Hdates) as Hsorted.
  pose proof (sort_Forall by_updated_desc valid_date replaced Hdates) as Hvalid'.
  pose proof (elem_of_sort by_updated_desc replaced) as Hsame.
  destruct (sort by_updated_desc replaced) as [|first rest]; [by inversion Hupdated|].
  cbn. f_equal.
  destruct (Hin first) as [->|Hfirst]; [apply Hsame; left|done|].
  destruct (strictly_older_not_newer _ _ Hfirst).
  apply (sorted_desc_head first rest); [by eapply Forall_inv|done|done].
Qed.

(** ** Deleting *)

Lemma filter_other_ids (id : NoteID) (l : list Note.t) :
  (∀ n, n ∈ l → Note.id n ≠ id) →
  List.filter (fun n => negb (String.eqb (Note.id n) id)) l = l.
Proof.
  intros Hl. apply forallb_filter_id, forallb_forall. intros n Hn.
  apply list_elem_of_In, Hl in Hn. by destruct (String.eqb_spec (Note.id n) id).
Qed.

(** X11. A delete that succeeds takes out the active note and nothing else:
    where no other note has its id, the list afterwards is the list before
    with that one note left out; and where no note of the list has the
    active id (the selection is stale), the list stays whole, though the
    request went out. *)
Theorem delete_removes_the_active_note_only `{Backend} (w : World) (id : NoteID) :
  value activeId w = Some id → truthy id = true →
  ok (answer_void (delete_request id w)) = true →
  ∃ w',
    returns (deleteNote w) [delete_request id w] w' ∧
    (∀ pre n post,
       value notes w = (pre ++ n :: post)%list → Note.id n = id →
       (∀ m, m ∈ (pre ++ post)%list → Note.id m ≠ id) →
       value notes w' = (pre ++ post)%list) ∧
    ((∀ m, m ∈ value notes w → Note.id m ≠ id) → value notes w' = value notes w).
Proof.
  intros Ha Hid Hok. unfold returns.
  rewrite deleteNote_run, Ha, Hid. cbn zeta. rewrite Hok. cbn [negb].
  assert (Hnotes : ∀ w', value notes w' =
                     List.filter (fun n => negb (String.eqb (Note.id n) id)) (value notes w) →
            (∀ pre n post,
               value notes w = (pre ++ n :: post)%list → Note.id n = id →
               (∀ m, m ∈ (pre ++ post)%list → Note.id m ≠ id) →
               value notes w' = (pre ++ post)%list) ∧
            ((∀ m, m ∈ value notes w → Note.id m ≠ id) → value notes w' = value notes w)).
  { intros w' ->. split.
    - intros pre n post -> Hn Hothers. rewrite List.filter_app. cbn.
      rewrite (proj2 (String.eqb_eq _ _) Hn). cbn.
      rewrite <- List.filter_app. by apply filter_other_ids.
    - apply filter_other_ids. }
  destruct (List.filter _ _) as [|first rest] eqn:Hrest;
    (eexists; split; [reflexivity|]); by apply Hnotes.
Qed.

(** X12. Deleting the note that was just created gives back the list as it
    was before the create, and selects its first note (or nothing, where it
    was empty): the two handlers undo each other on the list, provided the
    id of the created note is new to the list and not empty. *)
Theorem create_then_delete_restores_the_list `{Backend} (w : World) (created : Note.t) :
  ok (answer_note (create_request w)) = true →
  data (answer_note (create_request w)) = Some created →
  truthy (Note.id created) = true →
  (∀ n, n ∈ value notes w → Note.id n ≠ Note.id created) →
  ok (answer_void (delete_request (Note.id created) w)) = true →
  ∃ w',
    returns ((newNote ;; deleteNote) w)
      [create_request w; delete_request (Note.id created) w] w' ∧
    value notes w' = value notes w ∧
    match value notes w with
    | first :: _ =>
        value activeId w' = Some (Note.id first) ∧
        value title w' = Note.title first ∧ value content w' = Note.content first
    | [] => value activeId w' = None ∧ value title w' = "" ∧ value content w' = ""
    end.
Proof.
  intros Hok Hdata Hid Hfresh Hok'. unfold returns, bind.
  rewrite newNote_run, Hok, Hdata. cbn [negb returned calls].
  set (w1 := assign content _ _).
  assert (Hactive : value activeId w1 = Some (Note.id created)) by done.
  assert (Hlist : value notes w1 = created :: value notes w) by done.
  assert (Hrq : delete_request (Note.id created) w1 = delete_request (Note.id created) w)
    by done.
  rewrite deleteNote_run, Hactive, Hid. cbn zeta. rewrite Hrq, Hok', Hlist. cbn [negb].
  cbn [List.filter]. rewrite String.eqb_refl. cbn [negb].
  rewrite (filter_other_ids _ _ Hfresh).
  destruct (value notes w) as [|first rest] eqn:Hnotes; cbn [calls returned app];
    (eexists; split; [reflexivity|]); by cbn.
Qed.

(** ** Selecting *)

(** X13. A click on the note that is selected already keeps what was typed
    in the editor; a click on another note of the list throws it away and
    shows that note as it is in the list. *)
Theorem reselecting_keeps_the_draft (w : World) (id : NoteID) (t c : string) :
  value activeId w = Some id →
  (∃ w', returns ((onTitleInput t ;; onContentInput c ;; dispatch (selectNote id)) w) [] w' ∧
         value activeId w' = Some id ∧ value notes w' = value notes w ∧
         value title w' = t ∧ value content w' = c) ∧
  (∀ pre n post,
     value notes w = (pre ++ n :: post)%list → Note.id n ≠ id →
     (∀ m, m ∈ pre → Note.id m ≠ Note.id n) →
     ∃ w', returns ((onTitleInput t ;; onContentInput c ;; dispatch (selectNote (Note.id n))) w)
             [] w' ∧
           value activeId w' = Some (Note.id n) ∧ value notes w' = value notes w ∧
           value title w' = Note.title n ∧ value content w' = Note.content n).
Proof.
  intros Ha. unfold returns, onTitleInput, onContentInput.
  set (w1 := assign content c (assign title t w)).
  assert (Hstep : ∀ h : M unit,
            (title ::= t ;; content ::= c ;; h) w =
            {| calls := calls (h w1); returned := returned (h w1) |}) by done.
  assert (Ha1 : value activeId w1 = Some id) by done.
  split.
  - rewrite Hstep, dispatch_run.
    change (selectNote id w1) with (ret tt (assign activeId (Some id) w1)).
    cbn [ret returned calls].
    change (value activeId (assign activeId (Some id) w1)) with (Some id).
    rewrite Ha1. destruct (decide _) as [_|]; [|done]. by eexists.
  - intros pre n post Hnotes Hne Hpre. rewrite Hstep, dispatch_run.
    change (selectNote (Note.id n) w1) with (ret tt (assign activeId (Some (Note.id n)) w1)).
    cbn [ret returned calls].
    change (value activeId (assign activeId (Some (Note.id n)) w1)) with (Some (Note.id n)).
    rewrite Ha1. destruct (decide _) as [[= Heq]|_]; [done|].
    rewrite onActiveIdChange_run.
    change (value activeId (assign activeId (Some (Note.id n)) w1)) with (Some (Note.id n)).
    change (value notes (assign activeId (Some (Note.id n)) w1)) with (value notes w).
    rewrite Hnotes, (find_first_with_id (Note.id n) pre post n eq_refl Hpre).
    eexists. split; [reflexivity|]. by cbn.
Qed.

(** ** Signing in *)

(** X14. A submit that the backend answers with a session sets [auth.token]
    and [auth.user] to it, clears the error of the overlay and turns
    [loading] off.  In a browser it writes the token under [auth_token] and
    the user, as JSON, under [auth_user], and leaves every other key of local
    storage alone; without a window it stores nothing.  The overlay goes
    away, and the logout button comes, exactly when the token is not the
    empty string. *)
Theorem successful_submit_stores_the_session `{Platform, Backend}
    (w : World) (d : AuthData.t) :
  let rq := auth_request (auth_path (value AuthOverlay.mode w))
              (trim (value AuthOverlay.email w)) (value AuthOverlay.password w) in
  ok (answer_auth rq) = true → data (answer_auth rq) = Some d →
  ∃ w',
    returns (submit w) [rq] w' ∧
    value auth_token w' = Some (AuthData.token d) ∧
    value auth_user w' = Some (AuthData.user d) ∧
    header_email w' = Some (User.email (AuthData.user d)) ∧
    value AuthOverlay.error w' = None ∧ value AuthOverlay.loading w' = false ∧
    shows_overlay w' = negb (truthy (AuthData.token d)) ∧
    shows_logout w' = truthy (AuthData.token d) ∧
    match localStorage w with
    | Some ls =>
        ∃ ls', localStorage w' = Some ls' ∧
               ls' !! "auth_token" = Some (AuthData.token d) ∧
               ls' !! "auth_user" = Some (JSON_stringify (AuthData.user d)) ∧
               ∀ k, k ≠ "auth_token" → k ≠ "auth_user" → ls' !! k = ls !! k
    | None => localStorage w' = None
    end.
Proof.
  intros rq Hok Hdata. unfold returns. rewrite submit_run. fold rq.
  rewrite Hok, Hdata. cbn [negb present orb].
  eexists. split; [reflexivity|]. unfold on_localStorage. cbn.
  repeat (split; [done|]).
  destruct (localStorage w) as [ls|]; [|done]. cbn.
  eexists. split; [done|]. split; [|split].
  - by rewrite lookup_insert_ne, lookup_insert_eq.
  - by rewrite lookup_insert_eq.
  - intros k Htok Huser. by rewrite !lookup_insert_ne.
Qed.

(** ** The sidebar *)

Lemma same_id_same_note (l : list Note.t) (n m : Note.t) :
  NoDup (map Note.id l) → n ∈ l → m ∈ l → Note.id n = Note.id m → n = m.
Proof.
  intros Hnodup Hn Hm Heq.
  destruct (first_with_unique_id l n Hnodup Hn) as (pre & post & -> & Hpre).
  rewrite map_app in Hnodup. cbn in Hnodup.
  apply NoDup_app in Hnodup as (_ & _ & Hpost).
  apply NoDup_cons in Hpost as [Hpost _].
  apply elem_of_app in Hm as [Hm|Hm].
  - by destruct (Hpre m Hm).
  - apply elem_of_cons in Hm as [->|Hm]; [done|].
    destruct Hpost. rewrite Heq. by apply list_elem_of_fmap_2.
Qed.

(** X15. In the list of the sidebar an item is marked active exactly when
    the note is the selected one, so where ids are unique one item at most
    is marked; and every item shows a title, [Untitled] standing in for an
    empty one. *)
Theorem sidebar_marks_one_item_at_most `{Platform} (w : World) :
  (∀ n, item_class w n = "note-item active" ↔ value activeId w = Some (Note.id n)) ∧
  (NoDup (map Note.id (value notes w)) →
   ∀ n m, n ∈ filtered w → m ∈ filtered w →
          item_class w n = "note-item active" → item_class w m = "note-item active" →
          n = m) ∧
  (∀ n, truthy (item_title n) = true ∧
        (Note.title n ≠ "" → item_title n = Note.title n) ∧
        (Note.title n = "" → item_title n = "Untitled")).
Proof.
  assert (Hclass : ∀ n, item_class w n = "note-item active" ↔
                        value activeId w = Some (Note.id n)).
  { intros n. unfold item_class, strict_eq.
    destruct (value activeId w) as [a|]; [|cbn; split; discriminate].
    destruct (String.eqb_spec (Note.id n) a) as [->|Hne]; cbn; [done|].
    split; [discriminate|]. by intros [= ->]. }
  split; [done|]. split.
  - intros Hnodup n m Hn Hm Hcn Hcm.
    rewrite filtered_as_filter in Hn, Hm.
    apply list_elem_of_In, filter_In in Hn as [Hn%list_elem_of_In _].
    apply list_elem_of_In, filter_In in Hm as [Hm%list_elem_of_In _].
    apply (same_id_same_note _ _ _ Hnodup Hn Hm).
    apply Hclass in Hcn, Hcm. congruence.
  - intros n. unfold item_title, or_else, truthy.
    destruct (String.eqb_spec (Note.title n) "") as [Heq|Hne]; cbn [negb].
    + split; [done|]. split; [by intros []|done].
    + split; [by apply negb_true_iff, String.eqb_neq|]. split; [done|by intros ?].
Qed.

Lemma substring_of_trans (q q' s : string) :
  substring_of q q' → substring_of q' s → substring_of q s.
Proof.
  intros (x & y & ->) (a & b & ->).
  exists (a ++ x), (y ++ b). by rewrite !append_assoc.
Qed.

Lemma is_ascii_app (a b : string) :
  is_ascii (a ++ b) = is_ascii a && is_ascii b.
Proof.
  induction a as [|c a IH]; [done|].
  change (is_ascii (String c (a ++ b)) = is_ascii (String c a) && is_ascii b).
  cbn [is_ascii]. by rewrite IH, andb_assoc.
Qed.

(** On Basic Latin, a query that occurs in another does so in lower case
    too. *)
Lemma substring_of_toLowerCase_ascii `{Platform} (q q' : string) :
  is_ascii q' = true → substring_of q q' →
  substring_of (toLowerCase q) (toLowerCase q').
Proof.
  intros Hascii (x & y & ->).
  pose proof Hascii as Hparts.
  rewrite !is_ascii_app, !andb_true_iff in Hparts. destruct Hparts as (_ & Hq & _).
  rewrite !toLowerCase_ascii, !ascii_toLowerCase_app by done.
  by exists (ascii_toLowerCase x), (ascii_toLowerCase y).
Qed.

Lemma sublist_filter_weaker {A} (f g : A → bool) (l : list A) :
  (∀ x, f x = true → g x = true) →
  List.filter f l `sublist_of` List.filter g l.
Proof.
  intros Hfg. induction l as [|x l IH]; cbn; [constructor|].
  destruct (f x) eqn:Hf.
  - rewrite (Hfg x Hf). by constructor.
  - destruct (g x); [by constructor|done].
Qed.

Lemma narrower_query_sublist `{Platform} (w : World) (q q' : string) :
  substring_of (toLowerCase q) (toLowerCase q') →
  filtered (assign query q' w) `sublist_of` filtered (assign query q w).
Proof.
  intros Hsub. rewrite !filtered_as_filter.
  change (value notes (assign query q' w)) with (value notes w).
  change (value notes (assign query q w)) with (value notes w).
  change (value query (assign query q' w)) with q'.
  change (value query (assign query q w)) with q.
  apply sublist_filter_weaker. intros n.
  rewrite !orb_true_iff, !includes_spec.
  intros [Hn|Hn]; [left|right]; by apply (substring_of_trans _ _ _ Hsub).
Qed.

(** X16. Typing more into the search box never brings a note back, as long
    as the old query in lower case occurs in the new query in lower case:
    then the list shown for the new query is a sublist of the list shown for
    the old one.  That is so when the old query occurs in the new one and
    the new one is Basic Latin. *)
Theorem longer_query_narrows_the_list `{Platform} (w : World) (q q' : string) :
  returned (onQueryInput q w) = Some (tt, assign query q w) ∧
  (substring_of (toLowerCase q) (toLowerCase q') →
   filtered (assign query q' w) `sublist_of` filtered (assign query q w)) ∧
  (is_ascii q' = true → substring_of q q' →
   filtered (assign query q' w) `sublist_of` filtered (assign query q w)).
Proof.
  split; [done|]. split; [apply narrower_query_sublist|].
  intros Hascii Hsub. by apply narrower_query_sublist, substring_of_toLowerCase_ascii.
Qed.

(** Beyond Basic Latin a longer query can bring a note back: the capital
    sigma of the longer query ends a word, that of the shorter one does
    not. *)
Lemma longer_query_can_widen_the_list :
  substring_of "Σ" "ΟΣ" ∧
  filtered (H := example_platform) (searching "Σ" [odos]) = [] ∧
  filtered (H := example_platform) (searching "ΟΣ" [odos]) = [odos].
Proof. split; [by exists "Ο", ""|]. by vm_compute. Qed.

(** X17. The case of the query does not matter: two queries with the same
    lower-case form show the same list. *)
Theorem query_case_is_ignored `{Platform} (w : World) (q q' : string) :
  toLowerCase q = toLowerCase q' →
  filtered (assign query q w) = filtered (assign query q' w).
Proof.
  intros Hq. rewrite !filtered_as_filter.
  change (value notes (assign query q' w)) with (value notes w).
  change (value notes (assign query q w)) with (value notes w).
  change (value query (assign query q' w)) with q'.
  change (value query (assign query q w)) with q.
  by rewrite Hq.
Qed.

(** * The further properties at work *)

Lemma load_selects_the_latest_when_nothing_is_selected_witness :
  ∃ w',
    returns (loadNotes (H := example_platform)
               (H0 := answering_notes (success [groceries; travel; ideas]))
               (after_failure "Unauthorized" [] None "" ""))
      [load_request (after_failure "Unauthorized" [] None "" "")] w' ∧
    value err w' = None ∧
    value notes w' = [travel; ideas; groceries] ∧
    value activeId w' = Some "n3" ∧
    value title w' = "Travel" ∧ value content w' = "book the train" ∧
    ∀ n, n ∈ value notes w' → newer_or_equal (H := example_platform) travel n.
Proof.
  destruct (load_selects_the_latest_when_nothing_is_selected (H := example_platform)
              (H0 := answering_notes (success [groceries; travel; ideas]))
              (after_failure "Unauthorized" [] None "" "") eq_refl eq_refl)
    as (w' & Hrun & _ & Herr & Hnotes & _ & Hselect).
  destruct (Hselect eq_refl travel [ideas; groceries] Hnotes)
    as (Hactive & Htitle & Hcontent & Hlatest).
  exists w'. repeat (split; [assumption|]).
  apply Hlatest. repeat constructor; by eapply valid_date_iso; vm_compute.
Defined.

Lemma nothing_is_loaded_without_a_token_witness :
  returns (loadNotes (H := example_platform) (H0 := obliging [ideas] ideas) signed_out)
    [] signed_out ∧
  calls ((syncToken ;; onVisible (H := example_platform) (H0 := obliging [ideas] ideas))
           (signed_in [] None "" "")) =
    [{| method := GET; path := "/notes"; body := NoBody; bearer := Some "secret" |}].
Proof.
  split.
  - destruct (nothing_is_loaded_without_a_token (H := example_platform)
                (H0 := obliging [ideas] ideas) signed_out) as [Hnone _].
    exact (Hnone eq_refl).
  - destruct (nothing_is_loaded_without_a_token (H := example_platform)
                (H0 := obliging [ideas] ideas) (signed_in [] None "" "")) as (_ & _ & Hsync).
    exact Hsync.
Defined.

Lemma ok_answer_without_data_witness :
  (∃ w',
     returns (loadNotes (H := example_platform) (H0 := answering_notes hollow)
                (signed_in [ideas] (Some "n2") "Ideas" "a Reading LIST"))
       [load_request (signed_in [ideas] (Some "n2") "Ideas" "a Reading LIST")] w' ∧
     value notes w' = [] ∧ value activeId w' = Some "n2" ∧
     value title w' = "Ideas" ∧ value content w' = "a Reading LIST") ∧
  returned (newNote (H := answering_note hollow) (signed_in [ideas] None "" "")) = None ∧
  returned (saveNote (H := example_platform) (H0 := answering_note hollow)
              (signed_in [ideas] (Some "n2") "Ideas" "a Reading LIST")) = None.
Proof.
  split; [|split].
  - destruct (ok_answer_without_data (H := example_platform) (H0 := answering_notes hollow)
                (signed_in [ideas] (Some "n2") "Ideas" "a Reading LIST")) as [Hload _].
    exact (Hload eq_refl eq_refl eq_refl).
  - destruct (ok_answer_without_data (H := example_platform) (H0 := answering_note hollow)
                (signed_in [ideas] None "" "")) as (_ & Hcreate & _).
    by rewrite (Hcreate eq_refl eq_refl).
  - destruct (ok_answer_without_data (H := example_platform) (H0 := answering_note hollow)
                (signed_in [ideas] (Some "n2") "Ideas" "a Reading LIST")) as (_ & _ & Hupdate).
    by rewrite (Hupdate "n2" eq_refl eq_refl eq_refl eq_refl).
Defined.

Lemma failed_call_changes_only_err_witness :
  (∃ msg,
     returns (saveNote (H := example_platform)
                (H0 := answering_note (failure (Some "Conflict")))
                (signed_in [ideas] (Some "n2") "Ideas, again" "a draft"))
       [update_request "n2" "Ideas, again" "a draft"
          (signed_in [ideas] (Some "n2") "Ideas, again" "a draft")]
       (assign err (Some msg) (signed_in [ideas] (Some "n2") "Ideas, again" "a draft"))) ∧
  (∃ msg,
     returns (loadNotes (H := example_platform)
                (H0 := answering_notes (failure None))
                (signed_in [ideas] (Some "n2") "Ideas, again" "a draft"))
       [load_request (signed_in [ideas] (Some "n2") "Ideas, again" "a draft")]
       (assign err (Some msg)
          (assign loading false (signed_in [ideas] (Some "n2") "Ideas, again" "a draft")))).
Proof.
  split.
  - destruct (failed_call_changes_only_err (H := example_platform)
                (H0 := answering_note (failure (Some "Conflict")))
                (signed_in [ideas] (Some "n2") "Ideas, again" "a draft"))
      as (_ & _ & Hupdate & _).
    exact (Hupdate "n2" eq_refl eq_refl eq_refl).
  - destruct (failed_call_changes_only_err (H := example_platform)
                (H0 := answering_notes (failure None))
                (signed_in [ideas] (Some "n2") "Ideas, again" "a draft")) as [Hload _].
    exact (Hload eq_refl eq_refl).
Defined.

Lemma failed_call_shows_a_message_witness :
  (∃ w',
     returns (deleteNote (H := answering_void (failure (Some "")))
                (signed_in [ideas] (Some "n2") "Ideas" "a Reading LIST"))
       [delete_request "n2" (signed_in [ideas] (Some "n2") "Ideas" "a Reading LIST")] w' ∧
     shows_error w' = true) ∧
  (∃ w',
     returns (submit (H := example_platform) (H0 := answering_auth hollow) signing_in)
       [auth_request "/auth/login" "ann@example.org" "hunter2"] w' ∧
     overlay_shows_error w' = true).
Proof.
  split.
  - destruct (failed_call_shows_a_message (H := example_platform)
                (H0 := answering_void (failure (Some "")))
                (signed_in [ideas] (Some "n2") "Ideas" "a Reading LIST"))
      as (_ & _ & _ & Hdelete & _).
    exact (Hdelete "n2" eq_refl eq_refl eq_refl).
  - destruct (failed_call_shows_a_message (H := example_platform)
                (H0 := answering_auth hollow) signing_in) as (_ & _ & _ & _ & Hsubmit).
    exact (Hsubmit (or_intror eq_refl)).
Defined.

Lemma success_keeps_the_old_message_witness :
  ∃ w',
    returns (saveNote (H := example_platform) (H0 := answering_note (success ideas_edited))
               (after_failure "Conflict" [ideas] (Some "n2") "Ideas" "a reading list, and a film"))
      [update_request "n2" "Ideas" "a reading list, and a film"
         (after_failure "Conflict" [ideas] (Some "n2") "Ideas" "a reading list, and a film")] w' ∧
    value err w' = Some "Conflict".
Proof.
  destruct (success_keeps_the_old_message (H := example_platform)
              (H0 := answering_note (success ideas_edited))
              (after_failure "Conflict" [ideas] (Some "n2") "Ideas" "a reading list, and a film"))
    as (_ & Hupdate & _).
  exact (Hupdate "n2" ideas_edited eq_refl eq_refl eq_refl eq_refl).
Defined.

Lemma handlers_keep_to_their_own_state_witness :
  auth (assign err (Some "Failed to delete note")
          (signed_in [ideas] (Some "n2") "Ideas" "a Reading LIST")) =
    auth (signed_in [ideas] (Some "n2") "Ideas" "a Reading LIST") ∧
  page (assign AuthOverlay.error (Some "Invalid credentials") signing_in) = page signing_in.
Proof.
  split.
  - destruct (handlers_keep_to_their_own_state (H := example_platform)
                (H0 := answering_void (failure None))
                (signed_in [ideas] (Some "n2") "Ideas" "a Reading LIST")
                (assign err (Some "Failed to delete note")
                   (signed_in [ideas] (Some "n2") "Ideas" "a Reading LIST"))
                [delete_request "n2" (signed_in [ideas] (Some "n2") "Ideas" "a Reading LIST")])
      as [Hpage _].
    destruct Hpage as [Hauth _]; [|exact Hauth]. right. right. right. reflexivity.
  - destruct (handlers_keep_to_their_own_state (H := example_platform)
                (H0 := answering_auth (failure (Some "Invalid credentials")))
                signing_in
                (assign AuthOverlay.error (Some "Invalid credentials") signing_in)
                [auth_request "/auth/login" "ann@example.org" "hunter2"]) as [_ Hsubmit].
    exact (Hsubmit eq_refl).
Defined.

Lemma update_replaces_the_note_in_place_witness :
  ∃ w',
    returns (saveNote (H := example_platform) (H0 := answering_note (success ideas_edited))
               (signed_in [travel; ideas; groceries] (Some "n2") " Ideas " "a film"))
      [update_request "n2" "Ideas" "a film"
         (signed_in [travel; ideas; groceries] (Some "n2") " Ideas " "a film")] w' ∧
    value activeId w' = Some "n2" ∧
    value title w' = "Ideas" ∧
    value content w' = "a reading list, and a film" ∧
    length (value notes w') = 3%nat.
Proof.
  destruct (update_replaces_the_note_in_place (H := example_platform)
              (H0 := answering_note (success ideas_edited))
              (signed_in [travel; ideas; groceries] (Some "n2") " Ideas " "a film")
              "n2" ideas_edited eq_refl eq_refl eq_refl eq_refl)
    as (w' & Hrun & _ & Hactive & Htitle & Hcontent & Hlength & _).
  exists w'. repeat (split; [assumption|]). exact Hlength.
Defined.

Lemma saved_note_rises_to_the_top_witness :
  ∃ w',
    returns (saveNote (H := example_platform) (H0 := answering_note (success ideas_edited))
               (signed_in [travel; ideas; groceries] (Some "n2") " Ideas " "a film"))
      [update_request "n2" "Ideas" "a film"
         (signed_in [travel; ideas; groceries] (Some "n2") " Ideas " "a film")] w' ∧
    head (value notes w') = Some ideas_edited.
Proof.
  apply (saved_note_rises_to_the_top (H := example_platform)
           (H0 := answering_note (success ideas_edited))
           (signed_in [travel; ideas; groceries] (Some "n2") " Ideas " "a film")
           "n2" ideas_edited eq_refl eq_refl eq_refl eq_refl).
  - by eapply valid_date_iso; vm_compute.
  - exists ideas. split; [right; left|reflexivity].
  - intros n Hn Hid.
    repeat (apply elem_of_cons in Hn as [->|Hn]); [| |  |by inversion Hn].
    + eexists _, _. split; [by vm_compute|]. split; [by vm_compute|]. by vm_compute.
    + by destruct Hid.
    + eexists _, _. split; [by vm_compute|]. split; [by vm_compute|]. by vm_compute.
Defined.

Lemma delete_removes_the_active_note_only_witness :
  ∃ w',
    returns (deleteNote (H := answering_void hollow)
               (signed_in [travel; ideas; groceries] (Some "n2") "Ideas" "a Reading LIST"))
      [delete_request "n2"
         (signed_in [travel; ideas; groceries] (Some "n2") "Ideas" "a Reading LIST")] w' ∧
    value notes w' = [travel; groceries].
Proof.
  destruct (delete_removes_the_active_note_only (H := answering_void hollow)
              (signed_in [travel; ideas; groceries] (Some "n2") "Ideas" "a Reading LIST")
              "n2" eq_refl eq_refl eq_refl) as (w' & Hrun & Hout & _).
  exists w'. split; [exact Hrun|].
  apply (Hout [travel] ideas [groceries] eq_refl eq_refl).
  intros m Hm. repeat (apply elem_of_cons in Hm as [->|Hm]); [done|done|by inversion Hm].
Defined.

Lemma create_then_delete_restores_the_list_witness :
  ∃ w',
    returns ((newNote (H := obliging [] untitled_late) ;;
              deleteNote (H := obliging [] untitled_late))
               (signed_in [ideas; groceries] (Some "n2") "Ideas" "a Reading LIST"))
      [create_request (signed_in [ideas; groceries] (Some "n2") "Ideas" "a Reading LIST");
       delete_request "n5" (signed_in [ideas; groceries] (Some "n2") "Ideas" "a Reading LIST")]
      w' ∧
    value notes w' = [ideas; groceries] ∧
    value activeId w' = Some "n2" ∧
    value title w' = "Ideas" ∧ value content w' = "a Reading LIST".
Proof.
  apply (create_then_delete_restores_the_list (H := obliging [] untitled_late)
           (signed_in [ideas; groceries] (Some "n2") "Ideas" "a Reading LIST")
           untitled_late eq_refl eq_refl eq_refl); [|reflexivity].
  intros n Hn. repeat (apply elem_of_cons in Hn as [->|Hn]); [done|done|by inversion Hn].
Defined.

Lemma reselecting_keeps_the_draft_witness :
  (∃ w',
     returns ((onTitleInput "Ideas!" ;; onContentInput "a draft" ;; dispatch (selectNote "n2"))
                (signed_in [ideas; groceries] (Some "n2") "Ideas" "a Reading LIST")) [] w' ∧
     value activeId w' = Some "n2" ∧ value notes w' = [ideas; groceries] ∧
     value title w' = "Ideas!" ∧ value content w' = "a draft") ∧
  (∃ w',
     returns ((onTitleInput "Ideas!" ;; onContentInput "a draft" ;; dispatch (selectNote "n1"))
                (signed_in [ideas; groceries] (Some "n2") "Ideas" "a Reading LIST")) [] w' ∧
     value activeId w' = Some "n1" ∧ value notes w' = [ideas; groceries] ∧
     value title w' = "Groceries" ∧ value content w' = "milk, eggs").
Proof.
  destruct (reselecting_keeps_the_draft
              (signed_in [ideas; groceries] (Some "n2") "Ideas" "a Reading LIST")
              "n2" "Ideas!" "a draft" eq_refl) as [Hsame Hother].
  split; [exact Hsame|].
  apply (Hother [ideas] groceries [] eq_refl); [discriminate|].
  intros m Hm. apply list_elem_of_singleton in Hm as ->. discriminate.
Defined.

Lemma successful_submit_stores_the_session_witness :
  ∃ w',
    returns (submit (H := example_platform) (H0 := answering_auth (success granted)) signing_in)
      [auth_request "/auth/login" "ann@example.org" "hunter2"] w' ∧
    value auth_token w' = Some "secret" ∧
    value auth_user w' = Some ann ∧
    shows_overlay w' = false ∧
    ∃ ls', localStorage w' = Some ls' ∧
           ls' !! "auth_token" = Some "secret" ∧
           ls' !! "auth_user" = Some (frame_user ann).
Proof.
  destruct (successful_submit_stores_the_session (H := example_platform)
              (H0 := answering_auth (success granted)) signing_in granted eq_refl eq_refl)
    as (w' & Hrun & Htoken & Huser & _ & _ & _ & Hoverlay & _ & ls' & Hls & Hk1 & Hk2 & _).
  exists w'. repeat (split; [assumption|]).
  exists ls'. repeat (split; [assumption|]). exact Hk2.
Defined.

Lemma sidebar_marks_one_item_at_most_witness :
  item_class (signed_in [travel; ideas; groceries] (Some "n2") "" "") ideas = "note-item active" ∧
  ∀ n, n ∈ filtered (H := example_platform)
             (signed_in [travel; ideas; groceries] (Some "n2") "" "") →
       item_class (signed_in [travel; ideas; groceries] (Some "n2") "" "") n = "note-item active" →
       n = ideas.
Proof.
  destruct (sidebar_marks_one_item_at_most (H := example_platform)
              (signed_in [travel; ideas; groceries] (Some "n2") "" "")) as (Hclass & Hone & _).
  assert (Hideas : item_class (signed_in [travel; ideas; groceries] (Some "n2") "" "") ideas
                   = "note-item active") by (by apply Hclass).
  split; [exact Hideas|]. intros n Hn Hcn.
  apply Hone; [|exact Hn|by right; left|exact Hcn|exact Hideas].
  cbn. apply (bool_decide_unpack _). by vm_compute.
Defined.

Lemma longer_query_narrows_the_list_witness :
  filtered (H := example_platform)
    (assign query "Reading LIST" (searching "" [travel; ideas; groceries]))
    `sublist_of`
  filtered (H := example_platform)
    (assign query "LIST" (searching "" [travel; ideas; groceries])) ∧
  filtered (H := example_platform)
    (assign query "ΟΔΟΣ" (searching "" [travel; odos; groceries]))
    `sublist_of`
  filtered (H := example_platform)
    (assign query "ΔΟΣ" (searching "" [travel; odos; groceries])) ∧
  filtered (H := example_platform)
    (assign query "ΔΟΣ" (searching "" [travel; odos; groceries])) = [odos].
Proof.
  split; [|split].
  - destruct (longer_query_narrows_the_list (H := example_platform)
                (searching "" [travel; ideas; groceries]) "LIST" "Reading LIST")
      as (_ & _ & Hascii).
    apply Hascii; [reflexivity|]. by exists "Reading ", "".
  - destruct (longer_query_narrows_the_list (H := example_platform)
                (searching "" [travel; odos; groceries]) "ΔΟΣ" "ΟΔΟΣ")
      as (_ & Hlower & _).
    apply Hlower. by exists "ο", "".
  - reflexivity.
Defined.

Lemma query_case_is_ignored_witness :
  filtered (H := example_platform)
    (assign query "List" (searching "" [travel; ideas; groceries])) =
  filtered (H := example_platform)
    (assign query "lIST" (searching "" [travel; ideas; groceries])) ∧
  filtered (H := example_platform)
    (assign query "lIST" (searching "" [travel; ideas; groceries])) = [ideas].
Proof.
  split; [|reflexivity].
  exact (query_case_is_ignored (H := example_platform)
           (searching "" [travel; ideas; groceries]) "List" "lIST" eq_refl).
Defined.
